(** * pb-alloc: a pointer-bumping heap allocator

    Shallow embedding of [pb-alloc.c] (init, malloc, free, calloc, realloc)
    and of the caller pattern of [memtest.c].

    - [intptr_t] and [size_t] are 64-bit (LP64); both are carried as [Z] with
      the wrap-around of every C operation written out ([to_intptr],
      [to_size]).
    - The three globals and the byte memory form the state [heap_state].
    - Every function is a computation in the monad [M]: it threads the state
      and may end the process ([Fatal]), which is what [ERROR] does when
      [mmap] fails. *)

From Stdlib Require Import ZArith Bool Lia List.
Import ListNotations.

Local Open Scope Z_scope.

(* ================================================================== *)
(** ** Machine integers *)

Module Machine.

(** [size_t]: unsigned, 64 bits. *)
Definition SIZE_MOD : Z := 2 ^ 64.

(** [intptr_t]: signed, 64 bits, two's complement. *)
Definition INTPTR_MAX : Z := 2 ^ 63 - 1.
Definition INTPTR_MIN : Z := - 2 ^ 63.

(** Conversion of a mathematical result to [size_t] (also used for a
    pointer value, which is an unsigned 64-bit address). *)
Definition to_size (z : Z) : Z := z mod SIZE_MOD.

(** Conversion of a mathematical result to [intptr_t]. *)
Definition to_intptr (z : Z) : Z := (z + 2 ^ 63) mod SIZE_MOD - 2 ^ 63.

(** C's [%] on signed operands truncates toward zero: [Z.rem]. *)
Definition c_rem (a b : Z) : Z := Z.rem a b.

Definition in_size (z : Z) : Prop := 0 <= z < SIZE_MOD.
Definition in_intptr (z : Z) : Prop := INTPTR_MIN <= z <= INTPTR_MAX.

End Machine.
Export Machine.

(* ================================================================== *)
(** ** Byte memory *)

Module Mem.

(** The address space: one byte per address.  A cell is read through
    [load_byte], which keeps the low 8 bits.

    Every address can be read and written here: there are no unmapped
    pages, so a load or store that would end the real process with a fault
    goes through.  What is stated below about a call that returns is
    therefore either stated where every access of the call lies inside the
    reserved region, or stated under the condition that the call
    returns. *)
Definition memory : Type := Z -> Z.

Definition load_byte (m : memory) (a : Z) : Z := m a mod 256.

Definition store_byte (m : memory) (a v : Z) : memory :=
  fun a' => if a' =? a then v mod 256 else m a'.

(** An [n]-byte little-endian unsigned load / store (x86-64 layout of a
    [size_t] field). *)
Fixpoint load_le (n : nat) (m : memory) (a : Z) : Z :=
  match n with
  | O => 0
  | S k => load_byte m a + 256 * load_le k m (a + 1)
  end.

Fixpoint store_le (n : nat) (m : memory) (a v : Z) : memory :=
  match n with
  | O => m
  | S k => store_le k (store_byte m a v) (a + 1) (v / 256)
  end.

(** [memset (p, c, n)]. *)
Definition memset (m : memory) (p c n : Z) : memory :=
  fun a => if (p <=? a) && (a <? p + n) then c mod 256 else m a.

(** [memcpy (dst, src, n)]: every destination byte receives the source
    byte as it was before the call. *)
Definition memcpy (m : memory) (dst src n : Z) : memory :=
  fun a => if (dst <=? a) && (a <? dst + n) then m (src + (a - dst)) else m a.

(** Fresh anonymous pages: the [n] bytes from [p] read as zero. *)
Definition map_zero (m : memory) (p n : Z) : memory :=
  fun a => if (p <=? a) && (a <? p + n) then 0 else m a.

End Mem.
Export Mem.

(* ================================================================== *)
(** ** State and the allocator monad *)

(** MACRO CONSTANTS: [KB], [MB], [GB] and [HEAP_SIZE = GB(2)], in [size_t]. *)
Definition KB (size : Z) : Z := to_size (to_size size * 1024).
Definition MB (size : Z) : Z := to_size (KB size * 1024).
Definition GB (size : Z) : Z := to_size (MB size * 1024).
Definition HEAP_SIZE : Z := GB 2.

(** [sizeof (header_s)]: a single [size_t] field. *)
Definition sizeof_header : Z := 8.
Definition header_bytes : nat := 8.

Definition NULL : Z := 0.

(** GLOBALS ([free_addr], [start_addr], [end_addr], all [intptr_t]) together
    with the memory of the process. *)
Record heap_state : Type := mkHeap {
  free_addr  : Z;
  start_addr : Z;
  end_addr   : Z;
  mem        : memory
}.

(** The state of a process at its start: the globals are 0. *)
Definition boot (m : memory) : heap_state :=
  {| free_addr := 0; start_addr := 0; end_addr := 0; mem := m |}.

Definition set_free_addr (s : heap_state) (f : Z) : heap_state :=
  {| free_addr := f; start_addr := start_addr s; end_addr := end_addr s;
     mem := mem s |}.

Definition set_mem (s : heap_state) (m : memory) : heap_state :=
  {| free_addr := free_addr s; start_addr := start_addr s;
     end_addr := end_addr s; mem := m |}.

(** A call either returns a value in a new state or ends the process. *)
Inductive outcome (A : Type) : Type :=
| Done (a : A) (s : heap_state)
| Fatal.
Arguments Done {A} a s.
Arguments Fatal {A}.

Definition M (A : Type) : Type := heap_state -> outcome A.

Definition ret {A} (a : A) : M A := fun s => Done a s.

Definition bind {A B} (c : M A) (k : A -> M B) : M B :=
  fun s => match c s with
           | Done a s' => k a s'
           | Fatal => Fatal
           end.

Definition get : M heap_state := fun s => Done s s.
Definition put (s : heap_state) : M unit := fun _ => Done tt s.
Definition abort {A} : M A := fun _ => Fatal.

Declare Scope alloc_scope.
Delimit Scope alloc_scope with alloc.
Notation "x <- c ;; k" := (bind c (fun x => k))
  (at level 61, c at next level, right associativity) : alloc_scope.
Notation "c ;;; k" := (bind c (fun _ => k))
  (at level 61, right associativity) : alloc_scope.
Local Open Scope alloc_scope.

(** Observations on an outcome. *)
Definition value_of {A} (o : outcome A) : option A :=
  match o with Done a _ => Some a | Fatal => None end.

Definition state_of {A} (o : outcome A) : option heap_state :=
  match o with Done _ s => Some s | Fatal => None end.

Definition frontier_of {A} (o : outcome A) : option Z :=
  match o with Done _ s => Some (free_addr s) | Fatal => None end.

(** Reading and writing a block header through a pointer to it. *)
Definition header_size (m : memory) (header_ptr : Z) : Z :=
  load_le header_bytes m header_ptr.

Definition write_header (header_ptr size : Z) : M unit :=
  fun s => Done tt (set_mem s (store_le header_bytes (mem s) header_ptr size)).

(** The header of the block whose data pointer is [ptr]:
    [(header_s* )((intptr_t)ptr - sizeof (header_s))]. *)
Definition header_of (ptr : Z) : Z := to_size (to_intptr ptr - sizeof_header).

(* ================================================================== *)
(** ** The allocator *)

Section Allocator.

(** What [mmap] answers when [init] asks for the heap region: [Some heap]
    for the address of the mapping, [None] for [MAP_FAILED]. *)
Variable mmap_result : option Z.

(** Modelled from the spec: the macro [ERROR] of [safeio.h], which is not
    among the sources; it reports a fatal condition and terminates the
    process.  [DEBUG] only traces and is dropped. *)
Definition ERROR {A} : M A := abort.

(** [void init ()] *)
Definition init : M unit :=
  s <- get ;;
  if start_addr s =? 0 then
    match mmap_result with
    | None => ERROR
    | Some heap =>
        let start := to_intptr heap in
        put {| start_addr := start;
               end_addr := to_intptr (start + HEAP_SIZE);
               free_addr := start;
               mem := map_zero (mem s) heap HEAP_SIZE |}
    end
  else ret tt.

(** The padding step of [malloc]: the address at which the header of the
    next block is placed. *)
Definition pad (free : Z) : Z :=
  if c_rem free 16 <? 8
  then to_intptr (free + 24 - c_rem free 16)
  else to_intptr (free + 8 - c_rem free 16).

(** [size + sizeof (header_s)] in [size_t]. *)
Definition total_size (size : Z) : Z := to_size (size + sizeof_header).

(** [new_free_addr = free_addr + total_size], computed in [size_t] and
    stored in an [intptr_t]; [free] is the padded address. *)
Definition new_free_addr (free size : Z) : Z :=
  to_intptr (free + total_size size).

(** The test [new_free_addr > end_addr] of [malloc], on the state that
    [init] leaves. *)
Definition exhausted (s : heap_state) (size : Z) : bool :=
  end_addr s <? new_free_addr (pad (free_addr s)) size.

(** [void* malloc (size_t size)] *)
Definition malloc (size : Z) : M Z :=
  init ;;;
  if size =? 0 then ret NULL else
  s <- get ;;
  let free := pad (free_addr s) in
  put (set_free_addr s free) ;;;
  let header_ptr := to_size free in
  let block_ptr := to_size (free + sizeof_header) in
  if end_addr s <? new_free_addr free size then ret NULL else
  s <- get ;;
  put (set_free_addr s (new_free_addr free size)) ;;;
  write_header header_ptr size ;;;
  ret block_ptr.

(** [void free (void* ptr)]: only a trace. *)
Definition free (ptr : Z) : M unit := ret tt.

(** [void* calloc (size_t nmemb, size_t size)] *)
Definition calloc (nmemb size : Z) : M Z :=
  let block_size := to_size (nmemb * size) in
  block_ptr <- malloc block_size ;;
  (if negb (block_ptr =? NULL)
   then s <- get ;; put (set_mem s (memset (mem s) block_ptr 0 block_size))
   else ret tt) ;;;
  ret block_ptr.

(** [void* realloc (void* ptr, size_t size)] *)
Definition realloc (ptr size : Z) : M Z :=
  if ptr =? NULL then malloc size else
  if size =? 0 then free ptr ;;; ret NULL else
  s <- get ;;
  let old_header := header_of ptr in
  let old_size := header_size (mem s) old_header in
  if size <=? old_size then ret ptr else
  new_ptr <- malloc size ;;
  (if negb (new_ptr =? NULL)
   then s <- get ;;
        put (set_mem s (memcpy (mem s) new_ptr ptr old_size)) ;;;
        free ptr
   else ret tt) ;;;
  ret new_ptr.

(** What a caller does with a block it owns, as [memtest.c] does with
    [*y = 'a']: store one byte, read one byte. *)
Definition poke (a v : Z) : M unit :=
  s <- get ;; put (set_mem s (store_byte (mem s) a v)).

Definition peek (a : Z) : M Z :=
  s <- get ;; ret (load_byte (mem s) a).

(** Reading the global [free_addr], for the scenarios below. *)
Definition frontier : M Z :=
  s <- get ;; ret (free_addr s).

End Allocator.

(** The state [malloc] leaves when it gives up at the exhaustion test: the
    padding stays, nothing else has changed. *)
Definition after_failure (s0 : heap_state) : heap_state :=
  set_free_addr s0 (pad (free_addr s0)).

(** The state [malloc] leaves when it hands out a block. *)
Definition after_success (s0 : heap_state) (size : Z) : heap_state :=
  let free := pad (free_addr s0) in
  set_mem (set_free_addr (set_free_addr s0 free) (new_free_addr free size))
          (store_le header_bytes (mem s0) (to_size free) size).

(** The bytes a block occupies, header included:
    [[header_start, header_start + header_size + size)]. *)
Definition block_start (ptr : Z) : Z := ptr - sizeof_header.
Definition block_end (ptr size : Z) : Z := ptr + size.

Definition blocks_disjoint (p1 size1 p2 size2 : Z) : Prop :=
  block_end p1 size1 <= block_start p2 \/ block_end p2 size2 <= block_start p1.

(** A concrete process: [mmap] places the region at a page-aligned address. *)
Definition heap_base : Z := 140737488355328 - 4294967296.
Definition os : option Z := Some heap_base.
Definition zero_mem : memory := fun _ => 0.
Definition fresh : heap_state := boot zero_mem.

(** An already reserved region at [heap_base], nothing allocated yet. *)
Definition reserved : heap_state :=
  {| free_addr := heap_base; start_addr := heap_base;
     end_addr := heap_base + HEAP_SIZE;
     mem := map_zero zero_mem heap_base HEAP_SIZE |}.

(** The first block of [memtest.c], [x = malloc (24)], and the state after
    that call. *)
Definition first_ptr : Z := heap_base + 32.
Definition one_block : heap_state := after_success reserved 24.

(** A request that cannot fit ([HEAP_SIZE] bytes plus a header) after a
    block of 9 bytes: the frontier before and after the failed call. *)
Definition failed_request_scenario : M (Z * Z * Z * Z) :=
  p <- malloc os 9 ;;
  before <- frontier ;;
  q <- malloc os HEAP_SIZE ;;
  after <- frontier ;;
  ret (p, before, q, after).

(** Two allocations in a row; the caller has stored ['a'] in the last byte
    of the first block before asking for the second. *)
Definition two_blocks_scenario : M (Z * Z * Z * Z) :=
  p <- malloc os 9 ;;
  poke (p + 8) 97 ;;;
  before <- peek (p + 8) ;;
  q <- malloc os 1 ;;
  after <- peek (p + 8) ;;
  ret (p, q, before, after).

(** The second test of [memtest.c] on a block of 9 bytes: store a byte, grow
    the block, read the byte at the same offset of the new block. *)
Definition grow_scenario : M (Z * Z * Z * Z) :=
  p <- malloc os 9 ;;
  poke (p + 8) 97 ;;;
  before <- peek (p + 8) ;;
  q <- realloc os p 10 ;;
  after <- peek (q + 8) ;;
  ret (p, q, before, after).

(** Two allocations in a row, of 9 and of 24 bytes; the caller stores [v] in
    the last byte of the first block, then asks [realloc] to give the
    second block the size [new_size].  The result lists both pointers, the
    size that the header of the second block holds at the call, and what
    [realloc] returns. *)
Definition clobbered_header_scenario (v new_size : Z) : M (Z * Z * Z * Z) :=
  a <- malloc os 9 ;;
  p <- malloc os 24 ;;
  poke (a + 8) v ;;;
  s <- get ;;
  q <- realloc os p new_size ;;
  ret (a, p, header_size (mem s) (header_of p), q).



(* ================================================================== *)
(** ** Clients of the allocator *)

(** One step of a program that uses the allocator: a call of one of the four
    entry points, or a byte the program stores somewhere in memory. *)
Inductive call : Type :=
| CallMalloc (size : Z)
| CallFree (ptr : Z)
| CallCalloc (nmemb size : Z)
| CallRealloc (ptr size : Z)
| CallerStore (addr v : Z).

Section Clients.

Variable mmap_result : option Z.

(** The effect of one step on the state; the value returned is dropped. *)
Definition run_call (c : call) : M unit :=
  match c with
  | CallMalloc size => malloc mmap_result size ;;; ret tt
  | CallFree ptr => free ptr
  | CallCalloc nmemb size => calloc mmap_result nmemb size ;;; ret tt
  | CallRealloc ptr size => realloc mmap_result ptr size ;;; ret tt
  | CallerStore addr v => poke addr v
  end.

Fixpoint run_calls (cs : list call) : M unit :=
  match cs with
  | [] => ret tt
  | c :: cs' => run_call c ;;; run_calls cs'
  end.

(** [int main ()] of [pb-alloc.c], compiled under [ALLOC_MAIN]. *)
Definition main : M Z :=
  x <- malloc mmap_result 16 ;;
  y <- malloc mmap_result 64 ;;
  z <- malloc mmap_result 32 ;;
  free z ;;;
  free y ;;;
  free x ;;;
  ret 0.

End Clients.

(** Steps that are calls of the allocator. *)
Definition is_api (c : call) : bool :=
  match c with CallerStore _ _ => false | _ => true end.

(** The number of bytes a step asks [malloc] for, as the entry point computes
    it. *)
Definition call_size (c : call) : Z :=
  match c with
  | CallMalloc size => size
  | CallCalloc nmemb size => to_size (nmemb * size)
  | CallRealloc _ size => size
  | CallFree _ => 0
  | CallerStore _ _ => 0
  end.

(** Requests far from the width of [size_t], for which the bump of [malloc]
    cannot wrap. *)
Definition MODEST : Z := 2 ^ 61.
Definition modest (c : call) : Prop := 0 <= call_size c < MODEST.

(** The shape of the globals that the calls keep: a reserved region that
    starts on a 16-byte boundary, a frontier not below its start and either
    not above its end or, after a refused request, at the header place just
    above it. *)
Definition region_ok (s : heap_state) : Prop :=
  0 < start_addr s /\
  start_addr s mod 16 = 0 /\
  end_addr s <= MODEST /\
  start_addr s <= free_addr s /\
  (free_addr s <= end_addr s \/
   (free_addr s <= end_addr s + 24 /\ free_addr s mod 16 = 8)).

(** An address outside the reserved region. *)
Definition outside (s : heap_state) (a : Z) : Prop :=
  a < start_addr s \/ end_addr s <= a.

(** The states of a process whose [mmap] answers [heap]: no region yet, or
    the region at [heap] in the shape the calls keep. *)
Definition kept (heap : Z) (s : heap_state) : Prop :=
  start_addr s = 0 \/
  (region_ok s /\ start_addr s = heap /\ end_addr s = heap + HEAP_SIZE).

(* ================================================================== *)
(** ** Machine arithmetic *)

Lemma to_size_id z : in_size z -> to_size z = z.
Proof. unfold in_size, to_size. intros H. now apply Z.mod_small. Qed.

Lemma to_intptr_id z : in_intptr z -> to_intptr z = z.
Proof.
  unfold in_intptr, to_intptr, INTPTR_MIN, INTPTR_MAX, SIZE_MOD. intros H.
  rewrite Z.mod_small; lia.
Qed.

Lemma to_size_mod16 z : to_size z mod 16 = z mod 16.
Proof.
  unfold to_size, SIZE_MOD.
  rewrite (Z.mod_eq z (2 ^ 64)) by lia.
  replace (z - 2 ^ 64 * (z / 2 ^ 64))
    with (z + (- (2 ^ 60) * (z / 2 ^ 64)) * 16) by lia.
  apply Z.mod_add. lia.
Qed.

Lemma to_intptr_mod16 z : to_intptr z mod 16 = z mod 16.
Proof.
  unfold to_intptr, SIZE_MOD.
  rewrite (Z.mod_eq (z + 2 ^ 63) (2 ^ 64)) by lia.
  replace (z + 2 ^ 63 - 2 ^ 64 * ((z + 2 ^ 63) / 2 ^ 64) - 2 ^ 63)
    with (z + (- (2 ^ 60) * ((z + 2 ^ 63) / 2 ^ 64)) * 16) by lia.
  apply Z.mod_add. lia.
Qed.

Lemma c_rem_mod16 z : (z - c_rem z 16) mod 16 = 0.
Proof.
  unfold c_rem.
  pose proof (Z.quot_rem' z 16) as E.
  replace (z - Z.rem z 16) with (Z.quot z 16 * 16) by lia.
  apply Z.mod_mul. lia.
Qed.

Lemma c_rem_nonneg z : 0 <= z -> c_rem z 16 = z mod 16.
Proof. intros H. unfold c_rem. apply Z.rem_mod_nonneg; lia. Qed.

(* ================================================================== *)
(** ** Memory *)

Lemma load_byte_range m a : 0 <= load_byte m a < 256.
Proof. unfold load_byte. apply Z.mod_pos_bound. lia. Qed.

Lemma load_le_nonneg n : forall m a, 0 <= load_le n m a.
Proof.
  induction n as [|n IH]; intros m a; cbn [load_le]; [lia|].
  pose proof (load_byte_range m a). pose proof (IH m (a + 1)). lia.
Qed.

Lemma store_le_below n : forall m a v a', a' < a -> store_le n m a v a' = m a'.
Proof.
  induction n as [|n IH]; intros m a v a' Hlt; cbn [store_le]; [reflexivity|].
  rewrite IH by lia. unfold store_byte.
  destruct (Z.eqb_spec a' a); [lia | reflexivity].
Qed.

Lemma store_le_above n : forall m a v a',
  a + Z.of_nat n <= a' -> store_le n m a v a' = m a'.
Proof.
  induction n as [|n IH]; intros m a v a' Hge; cbn [store_le]; [reflexivity|].
  rewrite IH by lia. unfold store_byte.
  destruct (Z.eqb_spec a' a); [lia | reflexivity].
Qed.

(** A little-endian store followed by the load at the same address gives the
    value back, reduced to the width. *)
Lemma load_store_le n : forall m a v,
  load_le n (store_le n m a v) a = v mod 256 ^ Z.of_nat n.
Proof.
  induction n as [|n IH]; intros m a v.
  - simpl. now rewrite Z.mod_1_r.
  - cbn [load_le store_le]. rewrite IH.
    unfold load_byte. rewrite store_le_below by lia.
    unfold store_byte. rewrite Z.eqb_refl, Z.mod_mod by lia.
    rewrite Nat2Z.inj_succ, Z.pow_succ_r by lia.
    rewrite (Z.rem_mul_r v 256 (256 ^ Z.of_nat n)) by lia. reflexivity.
Qed.

Lemma header_size_nonneg m a : 0 <= header_size m a.
Proof. apply load_le_nonneg. Qed.

Lemma header_size_written m a size :
  in_size size -> header_size (store_le header_bytes m a size) a = size.
Proof.
  intros H. unfold header_size. rewrite load_store_le.
  apply Z.mod_small. exact H.
Qed.


(* ================================================================== *)
(** ** The padding step *)

(** The padded address is always the place of a header: 8 below a 16-byte
    boundary. *)
Lemma pad_mod16 f : pad f mod 16 = 8.
Proof.
  unfold pad. pose proof (c_rem_mod16 f) as E.
  destruct (c_rem f 16 <? 8); rewrite to_intptr_mod16.
  - replace (f + 24 - c_rem f 16) with (8 + (f - c_rem f 16) + 1 * 16) by lia.
    rewrite Z.mod_add by lia. rewrite Z.add_mod, E by lia. reflexivity.
  - replace (f + 8 - c_rem f 16) with (8 + (f - c_rem f 16)) by lia.
    rewrite Z.add_mod, E by lia. reflexivity.
Qed.

(** On addresses of the process the padding does not wrap, moves the
    frontier back by at most 7 and forward by at most 24. *)
Lemma pad_bounds f :
  0 <= f <= INTPTR_MAX - 32 -> f - 7 <= pad f <= f + 24 /\ 8 <= pad f.
Proof.
  intros H. unfold pad. rewrite c_rem_nonneg by lia.
  pose proof (Z.mod_pos_bound f 16 ltac:(lia)) as R.
  pose proof (Z.mod_le f 16 ltac:(lia) ltac:(lia)) as L.
  unfold INTPTR_MAX in H.
  destruct (Z.ltb_spec (f mod 16) 8);
    rewrite to_intptr_id by (unfold in_intptr, INTPTR_MIN, INTPTR_MAX; lia); lia.
Qed.

(** Padding an already padded address changes nothing. *)
Lemma pad_idempotent f : 0 <= f <= INTPTR_MAX - 32 -> pad (pad f) = pad f.
Proof.
  intros H. destruct (pad_bounds f H) as [B P]. pose proof (pad_mod16 f) as E.
  unfold pad at 1. rewrite c_rem_nonneg by lia. rewrite E.
  change (8 <? 8) with false. cbv iota.
  replace (pad f + 8 - 8) with (pad f) by lia.
  apply to_intptr_id. unfold in_intptr, INTPTR_MIN, INTPTR_MAX in *. lia.
Qed.

(* ================================================================== *)
(** ** The allocator, call by call *)

Section Calls.

(** The answer of [mmap], as in [Allocator]. *)
Variable mm : option Z.

(** Once the region is reserved, [init] does nothing. *)
Lemma init_reserved s : start_addr s <> 0 -> init mm s = Done tt s.
Proof.
  intros H. unfold init, bind, get.
  destruct (Z.eqb_spec (start_addr s) 0); [contradiction | reflexivity].
Qed.

(** The two ways out of [malloc] for a non-zero size. *)
Lemma malloc_nonzero s s0 size :
  init mm s = Done tt s0 -> size <> 0 ->
  malloc mm size s =
    if exhausted s0 size
    then Done NULL (after_failure s0)
    else Done (to_size (pad (free_addr s0) + sizeof_header))
              (after_success s0 size).
Proof.
  intros Hi Hs. unfold malloc, bind at 1. rewrite Hi.
  destruct (Z.eqb_spec size 0); [contradiction|].
  unfold exhausted, bind, get, put, ret, write_header. cbn.
  destruct (end_addr s0 <? new_free_addr (pad (free_addr s0)) size);
    reflexivity.
Qed.

Lemma malloc_zero s s0 : init mm s = Done tt s0 -> malloc mm 0 s = Done NULL s0.
Proof.
  intros Hi. unfold malloc, bind. rewrite Hi. reflexivity.
Qed.

Lemma malloc_fatal s size : init mm s = Fatal -> malloc mm size s = Fatal.
Proof.
  intros Hi. unfold malloc, bind. rewrite Hi. reflexivity.
Qed.

(** [init] either reserves the region or ends the process; it never
    returns anything but [tt]. *)
Lemma init_cases s : init mm s = Fatal \/ exists s0, init mm s = Done tt s0.
Proof.
  destruct (init mm s) as [[] s0|]; [right; now exists s0 | now left].
Qed.

(** The pointer handed out is the padded address plus the header, and on
    addresses of the process none of the conversions wraps. *)
Lemma block_ptr_exact f :
  0 <= f <= INTPTR_MAX - 32 ->
  to_size (pad f + sizeof_header) = pad f + sizeof_header /\
  to_size (pad f) = pad f /\
  header_of (pad f + sizeof_header) = pad f.
Proof.
  intros H. destruct (pad_bounds f H) as [B P].
  unfold header_of, sizeof_header, INTPTR_MAX in *.
  assert (I : in_size (pad f)) by (unfold in_size, SIZE_MOD; lia).
  assert (J : in_size (pad f + 8)) by (unfold in_size, SIZE_MOD; lia).
  rewrite (to_size_id _ J), (to_size_id _ I).
  rewrite to_intptr_id
    by (unfold in_intptr, INTPTR_MIN, INTPTR_MAX; lia).
  replace (pad f + 8 - 8) with (pad f) by lia.
  rewrite (to_size_id _ I). auto.
Qed.

(** [realloc] on a block that is too small: allocate, then copy what the
    old header says the block holds. *)
Lemma realloc_grow s p size :
  p <> NULL -> header_size (mem s) (header_of p) < size ->
  realloc mm p size s =
    match malloc mm size s with
    | Done new_ptr s1 =>
        if new_ptr =? NULL then Done new_ptr s1
        else Done new_ptr
               (set_mem s1 (memcpy (mem s1) new_ptr p
                              (header_size (mem s) (header_of p))))
    | Fatal => Fatal
    end.
Proof.
  intros Hp Hlt. pose proof (header_size_nonneg (mem s) (header_of p)) as H0.
  unfold realloc.
  destruct (Z.eqb_spec p NULL); [contradiction|].
  destruct (Z.eqb_spec size 0); [lia|].
  unfold bind at 1, get.
  destruct (Z.leb_spec size (header_size (mem s) (header_of p))); [lia|].
  unfold bind at 1.
  destruct (malloc mm size s) as [new_ptr s1|]; [|reflexivity].
  destruct (new_ptr =? NULL); reflexivity.
Qed.

(** On addresses of the process and for a request whose bump does not leave
    [intptr_t], the test of [malloc] is the comparison of the spec:
    padded frontier + size + header against the end of the region. *)
Lemma exhausted_in_range s size :
  0 <= free_addr s <= INTPTR_MAX - 32 ->
  0 <= size ->
  pad (free_addr s) + size + sizeof_header <= INTPTR_MAX ->
  exhausted s size = (end_addr s <? pad (free_addr s) + size + sizeof_header).
Proof.
  intros Hf Hs Hfit. destruct (pad_bounds _ Hf) as [B P].
  unfold exhausted, new_free_addr, total_size, sizeof_header, INTPTR_MAX in *.
  rewrite (to_size_id (size + 8)) by (unfold in_size, SIZE_MOD; lia).
  rewrite to_intptr_id by (unfold in_intptr, INTPTR_MIN, INTPTR_MAX; lia).
  f_equal. lia.
Qed.

(** When the remainder of the frontier is above 8, the header of the next
    block is placed below the frontier. *)
Lemma pad_below_frontier f :
  0 <= f <= INTPTR_MAX - 32 -> 8 < f mod 16 -> pad f = f - (f mod 16 - 8).
Proof.
  intros H R. unfold pad. rewrite c_rem_nonneg by lia.
  destruct (Z.ltb_spec (f mod 16) 8); [lia|].
  pose proof (Z.mod_pos_bound f 16 ltac:(lia)).
  pose proof (Z.mod_le f 16 ltac:(lia) ltac:(lia)).
  unfold INTPTR_MAX in H.
  rewrite to_intptr_id by (unfold in_intptr, INTPTR_MIN, INTPTR_MAX; lia). lia.
Qed.

(** What a successful [malloc] establishes about the block it returns, as
    long as the bump stays within [intptr_t]: the header read through
    [header_of] holds the size asked for, and the frontier lies above the
    pointer. *)
Lemma malloc_establishes_block s s0 size :
  init mm s = Done tt s0 ->
  0 <= free_addr s0 <= INTPTR_MAX - 32 ->
  0 < size ->
  pad (free_addr s0) + size + sizeof_header <= INTPTR_MAX ->
  exhausted s0 size = false ->
  exists p s',
    malloc mm size s = Done p s' /\
    0 < p <= free_addr s' /\
    start_addr s' = start_addr s0 /\
    header_size (mem s') (header_of p) = size.
Proof.
  intros Hi Hf Hs Hfit Hx.
  destruct (block_ptr_exact _ Hf) as (Eb & Eh & Eo).
  destruct (pad_bounds _ Hf) as [B P].
  exists (pad (free_addr s0) + sizeof_header), (after_success s0 size).
  rewrite (malloc_nonzero s s0 size Hi) by lia. rewrite Hx, Eb.
  split; [reflexivity|]. rewrite Eo.
  unfold after_success. cbn [free_addr start_addr mem set_mem set_free_addr].
  unfold new_free_addr, total_size, sizeof_header, INTPTR_MAX in *.
  rewrite (to_size_id (size + 8)) by (unfold in_size, SIZE_MOD; lia).
  rewrite to_intptr_id by (unfold in_intptr, INTPTR_MIN, INTPTR_MAX; lia).
  repeat split; try lia.
  rewrite Eh. apply header_size_written. unfold in_size, SIZE_MOD. lia.
Qed.

(* ================================================================ *)
(** ** Claims *)

(** C4. For a request [size > 0] that passes the exhaustion test of
    [malloc], taken on a frontier that is an address of the process,
    [malloc] returns a non-null pointer [p] with [p mod 16 = 0], and the
    8 header bytes immediately before [p] hold [size], the size that was
    asked for (not the total with the header). *)
Theorem malloc_returns_aligned_block s s0 size :
  init mm s = Done tt s0 ->
  0 <= free_addr s0 <= INTPTR_MAX - 32 ->
  0 < size < SIZE_MOD ->
  exhausted s0 size = false ->
  exists p s',
    malloc mm size s = Done p s' /\
    p <> NULL /\ p mod 16 = 0 /\
    header_of p = p - sizeof_header /\
    header_size (mem s') (p - sizeof_header) = size.
Proof.
  intros Hi Hf Hs Hx.
  destruct (block_ptr_exact _ Hf) as (Eb & Eh & Eo).
  destruct (pad_bounds _ Hf) as [B P].
  exists (pad (free_addr s0) + sizeof_header), (after_success s0 size).
  rewrite (malloc_nonzero s s0 size Hi) by lia. rewrite Hx, Eb.
  split; [reflexivity|]. unfold NULL, sizeof_header in *.
  split; [lia|]. split.
  - rewrite Z.add_mod, pad_mod16 by lia. reflexivity.
  - split; [rewrite Eo; lia|].
    replace (pad (free_addr s0) + 8 - 8) with (pad (free_addr s0)) by lia.
    unfold after_success. cbn [mem set_mem]. rewrite Eh.
    apply header_size_written. unfold in_size. lia.
Qed.

(** C1 (amended). When [malloc (size)], [size > 0], gives up at the
    exhaustion test it returns null, writes no byte and leaves the bounds of
    the region alone, and it does not add [size] and the header to the
    frontier; but the frontier is not put back to its value before the
    call: it stays at the padded header address that the alignment step
    computed, 8 below a 16-byte boundary, where padding again is a no-op. *)
Theorem malloc_exhausted_keeps_padding s s0 size :
  init mm s = Done tt s0 ->
  0 < size ->
  exhausted s0 size = true ->
  exists s',
    malloc mm size s = Done NULL s' /\
    free_addr s' = pad (free_addr s0) /\
    free_addr s' mod 16 = 8 /\
    start_addr s' = start_addr s0 /\
    end_addr s' = end_addr s0 /\
    mem s' = mem s0 /\
    (0 <= free_addr s0 <= INTPTR_MAX - 32 ->
     pad (free_addr s') = free_addr s').
Proof.
  intros Hi Hs Hx. exists (after_failure s0).
  rewrite (malloc_nonzero s s0 size Hi) by lia. rewrite Hx.
  unfold after_failure. cbn [free_addr start_addr end_addr mem set_free_addr].
  repeat split.
  - apply pad_mod16.
  - apply pad_idempotent.
Qed.

(** C6. Let [p] be a non-null block pointer whose header holds [old_size],
    in a reserved region, and let [new_size > old_size].  If the request
    for [new_size] does not pass the exhaustion test of [malloc], then
    [realloc (p, new_size)] returns null and no byte of memory has
    changed: the header of [p] still holds [old_size] and the [old_size]
    data bytes of [p] are what they were. *)
Theorem realloc_grow_exhausted_keeps_block s p old_size new_size :
  start_addr s <> 0 ->
  p <> NULL ->
  header_size (mem s) (header_of p) = old_size ->
  old_size < new_size ->
  exhausted s new_size = true ->
  exists s',
    realloc mm p new_size s = Done NULL s' /\
    mem s' = mem s /\
    header_size (mem s') (header_of p) = old_size /\
    forall i, 0 <= i < old_size ->
              load_byte (mem s') (p + i) = load_byte (mem s) (p + i).
Proof.
  intros Hr Hp Ho Hlt Hx. subst old_size.
  pose proof (header_size_nonneg (mem s) (header_of p)) as H0.
  exists (after_failure s).
  rewrite (realloc_grow s p new_size Hp Hlt).
  rewrite (malloc_nonzero s s new_size (init_reserved s Hr)) by lia.
  rewrite Hx. cbn [Z.eqb NULL after_failure set_free_addr mem].
  repeat split.
Qed.

(** X17. Let [p] be a non-null pointer such that the 8 bytes below it,
    read as a header, hold [old_size], and let [0 < new_size <= old_size].
    Then [realloc (p, new_size)]
    returns [p] itself in the very state it was called in: the frontier has
    not moved (nothing was allocated), no byte was written (nothing was
    copied), and the header of [p] still holds [old_size], not
    [new_size]. *)
Theorem realloc_shrink_returns_same s p old_size new_size :
  p <> NULL ->
  header_size (mem s) (header_of p) = old_size ->
  0 < new_size <= old_size ->
  realloc mm p new_size s = Done p s /\
  header_size (mem s) (header_of p) = old_size.
Proof.
  intros Hp Ho Hn. split; [|exact Ho]. unfold realloc.
  destruct (Z.eqb_spec p NULL); [contradiction|].
  destruct (Z.eqb_spec new_size 0); [lia|].
  unfold bind, get. rewrite Ho.
  destruct (Z.leb_spec new_size old_size); [reflexivity | lia].
Qed.

(** [calloc] is [malloc] of the product followed, on a non-null result, by
    a [memset] of that many bytes. *)
Lemma calloc_unfold s nmemb size :
  calloc mm nmemb size s =
    match malloc mm (to_size (nmemb * size)) s with
    | Done block_ptr s1 =>
        if block_ptr =? NULL then Done block_ptr s1
        else Done block_ptr
               (set_mem s1 (memset (mem s1) block_ptr 0
                              (to_size (nmemb * size))))
    | Fatal => Fatal
    end.
Proof.
  unfold calloc, bind at 1.
  destruct (malloc mm (to_size (nmemb * size)) s) as [block_ptr s1|];
    [|reflexivity].
  destruct (block_ptr =? NULL); reflexivity.
Qed.

(** C9 (amended). [malloc (0)] returns null and does nothing of its own.
    On a region that is already reserved the state after the call is the
    state before it: the frontier, the bounds and every byte of memory are
    unchanged.  On a process without a region the call first runs [init]:
    it ends in exactly the state [init] leaves (the region reserved, the
    frontier at its start), and when [mmap] fails it ends the process. *)
Theorem malloc_zero_returns_null s :
  (start_addr s <> 0 -> malloc mm 0 s = Done NULL s) /\
  (forall s0, init mm s = Done tt s0 -> malloc mm 0 s = Done NULL s0) /\
  (init mm s = Fatal -> malloc mm 0 s = Fatal).
Proof.
  split; [|split].
  - intros Hr. apply malloc_zero. apply init_reserved. exact Hr.
  - intros s0. apply malloc_zero.
  - apply malloc_fatal.
Qed.

(** X18. Let [p] be a non-null pointer such that the 8 bytes below it,
    read as a header, hold [old_size], in a reserved region whose frontier
    lies at or above [p], and let [new_size > old_size].  Then whenever
    [realloc (p, new_size)] returns a non-null pointer [q], that pointer
    lies strictly above the frontier of the call, hence above [p]:
    [q <> p]. *)
Theorem realloc_grow_returns_fresh_pointer s p old_size new_size q s' :
  start_addr s <> 0 ->
  0 < p <= free_addr s ->
  free_addr s <= INTPTR_MAX - 32 ->
  header_size (mem s) (header_of p) = old_size ->
  old_size < new_size ->
  realloc mm p new_size s = Done q s' ->
  q <> NULL ->
  free_addr s < q /\ q <> p.
Proof.
  intros Hr Hp Hf Ho Hlt R Hq. subst old_size.
  pose proof (header_size_nonneg (mem s) (header_of p)) as H0.
  assert (Hp' : p <> NULL) by (unfold NULL; lia).
  assert (Hb : 0 <= free_addr s <= INTPTR_MAX - 32) by lia.
  destruct (block_ptr_exact _ Hb) as (Eb & _ & _).
  destruct (pad_bounds _ Hb) as [B _].
  rewrite (realloc_grow s p new_size Hp' Hlt) in R.
  rewrite (malloc_nonzero s s new_size (init_reserved s Hr)) in R by lia.
  destruct (exhausted s new_size).
  - change (NULL =? NULL) with true in R. injection R as <- _. contradiction.
  - rewrite Eb in R.
    destruct (Z.eqb_spec (pad (free_addr s) + sizeof_header) NULL);
      injection R as <- _; unfold sizeof_header in *; lia.
Qed.

End Calls.

(* ================================================================== *)
(** ** The claims on a concrete process *)

Lemma init_fresh : init os fresh = Done tt reserved.
Proof. reflexivity. Qed.

(** [one_block] and [first_ptr] are what [x = malloc (24)] gives at the
    start of the process. *)
Lemma malloc_first_block : malloc os 24 fresh = Done first_ptr one_block.
Proof. reflexivity. Qed.

Lemma malloc_returns_aligned_block_witness :
  exists p s',
    malloc os 24 fresh = Done p s' /\
    p <> NULL /\ p mod 16 = 0 /\
    header_of p = p - sizeof_header /\
    header_size (mem s') (p - sizeof_header) = 24.
Proof.
  apply (malloc_returns_aligned_block os fresh reserved 24).
  - reflexivity.
  - vm_compute. split; discriminate.
  - vm_compute. split; reflexivity.
  - reflexivity.
Defined.

Lemma malloc_exhausted_keeps_padding_witness :
  exists s',
    malloc os HEAP_SIZE reserved = Done NULL s' /\
    free_addr s' = pad (free_addr reserved) /\
    free_addr s' mod 16 = 8 /\
    start_addr s' = start_addr reserved /\
    end_addr s' = end_addr reserved /\
    mem s' = mem reserved /\
    (0 <= free_addr reserved <= INTPTR_MAX - 32 ->
     pad (free_addr s') = free_addr s').
Proof.
  apply (malloc_exhausted_keeps_padding os reserved reserved HEAP_SIZE).
  - reflexivity.
  - vm_compute. reflexivity.
  - reflexivity.
Defined.

(** C1, as stated, fails: on a reserved region with nothing allocated, the
    request for [HEAP_SIZE] bytes does not fit, [malloc] returns null, and
    the frontier is 24 above where it was. *)
Lemma malloc_exhausted_moves_frontier :
  exhausted reserved HEAP_SIZE = true /\
  value_of (malloc os HEAP_SIZE reserved) = Some NULL /\
  frontier_of (malloc os HEAP_SIZE reserved) = Some (free_addr reserved + 24) /\
  frontier_of (malloc os HEAP_SIZE reserved) <> Some (free_addr reserved).
Proof.
  repeat split; try reflexivity. vm_compute. discriminate.
Qed.

Lemma one_block_header : header_size (mem one_block) (header_of first_ptr) = 24.
Proof. reflexivity. Qed.

Lemma realloc_grow_exhausted_keeps_block_witness :
  exists s',
    realloc os first_ptr HEAP_SIZE one_block = Done NULL s' /\
    mem s' = mem one_block /\
    header_size (mem s') (header_of first_ptr) = 24 /\
    forall i, 0 <= i < 24 ->
              load_byte (mem s') (first_ptr + i) =
              load_byte (mem one_block) (first_ptr + i).
Proof.
  apply (realloc_grow_exhausted_keeps_block os one_block first_ptr 24 HEAP_SIZE).
  - vm_compute. discriminate.
  - vm_compute. discriminate.
  - reflexivity.
  - vm_compute. reflexivity.
  - reflexivity.
Defined.

Lemma realloc_shrink_returns_same_witness :
  realloc os first_ptr 20 one_block = Done first_ptr one_block /\
  header_size (mem one_block) (header_of first_ptr) = 24.
Proof.
  apply (realloc_shrink_returns_same os one_block first_ptr 24 20).
  - vm_compute. discriminate.
  - reflexivity.
  - vm_compute. split; [reflexivity | discriminate].
Defined.

Lemma malloc_zero_returns_null_witness :
  malloc os 0 one_block = Done NULL one_block /\
  malloc os 0 fresh = Done NULL reserved /\
  malloc None 0 fresh = Fatal.
Proof.
  split; [|split].
  - apply (proj1 (malloc_zero_returns_null os one_block)).
    vm_compute. discriminate.
  - apply (proj1 (proj2 (malloc_zero_returns_null os fresh)) reserved).
    reflexivity.
  - apply (proj2 (proj2 (malloc_zero_returns_null None fresh))).
    reflexivity.
Defined.

(** C9, as stated, fails on the first call of a process: [malloc (0)]
    returns null, but the frontier, 0 before the call, is the start of the
    region after it; and when [mmap] fails the call does not return. *)
Lemma malloc_zero_reserves_on_first_call :
  value_of (malloc os 0 fresh) = Some NULL /\
  free_addr fresh = 0 /\
  frontier_of (malloc os 0 fresh) = Some heap_base /\
  frontier_of (malloc os 0 fresh) <> Some (free_addr fresh) /\
  malloc None 0 fresh = Fatal.
Proof.
  repeat split; try reflexivity. vm_compute. discriminate.
Qed.

Lemma realloc_grow_returns_fresh_pointer_witness :
  free_addr one_block < heap_base + 64 /\ heap_base + 64 <> first_ptr.
Proof.
  apply (realloc_grow_returns_fresh_pointer os one_block first_ptr 24 48
           (heap_base + 64)
           (set_mem (after_success one_block 48)
              (memcpy (mem (after_success one_block 48)) (heap_base + 64)
                 first_ptr 24))).
  - vm_compute. discriminate.
  - vm_compute. split; [reflexivity | discriminate].
  - vm_compute. discriminate.
  - reflexivity.
  - reflexivity.
  - reflexivity.
  - vm_compute. discriminate.
Defined.

(** C2 fails on the code.  After [malloc (9)] the frontier is 41 bytes into
    the region; the request for [HEAP_SIZE] bytes then returns null and
    leaves the frontier 40 bytes into the region, one byte lower: with
    [free_addr % 16 = 9] the padding step adds [8 - 9]. *)
Theorem failed_malloc_lowers_frontier :
  value_of (failed_request_scenario fresh) =
    Some (heap_base + 32, heap_base + 41, NULL, heap_base + 40).
Proof. vm_compute. reflexivity. Qed.

(** C3 fails on the code.  [malloc (9)] returns the block at offset 32
    (bytes 24 to 40 of the region, header included); the next call,
    [malloc (1)], returns the block at offset 48, whose header starts at
    offset 40: the two ranges share byte 40, and writing the second header
    replaces the ['a'] the caller stored in the last byte of the first
    block. *)
Theorem consecutive_blocks_overlap :
  value_of (two_blocks_scenario fresh) =
    Some (heap_base + 32, heap_base + 48, 97, 1) /\
  ~ blocks_disjoint (heap_base + 32) 9 (heap_base + 48) 1.
Proof.
  split; [vm_compute; reflexivity|].
  unfold blocks_disjoint, block_start, block_end, sizeof_header, heap_base.
  lia.
Qed.

(** C5 fails on the code.  With [p = malloc (9)] and ['a'] stored at
    [p + 8], [realloc (p, 10)] returns a new block [q] whose byte 8 is 10,
    not ['a']: the header of the new block was written over [p + 8] before
    the copy. *)
Theorem realloc_grow_loses_last_byte :
  value_of (grow_scenario fresh) =
    Some (heap_base + 32, heap_base + 48, 97, 10).
Proof. vm_compute. reflexivity. Qed.

(** C7 fails on the code.  With [a = malloc (9)] and [p = malloc (24)] the
    header of [p] starts at the last byte of [a].  After the caller stores 1
    in that byte of its own block, the header of [p] holds 1, and
    [realloc (p, 20)], a request that fits in the 24 bytes [p] was
    allocated with, does not return [p]: it allocates the block at offset
    80. *)
Theorem realloc_shrink_moves_block :
  value_of (clobbered_header_scenario 1 20 fresh) =
    Some (heap_base + 32, heap_base + 48, 1, heap_base + 80) /\
  block_start (heap_base + 48) < block_end (heap_base + 32) 9 /\
  heap_base + 80 <> heap_base + 48.
Proof.
  split; [vm_compute; reflexivity|].
  unfold block_start, block_end, sizeof_header, heap_base. lia.
Qed.

(** C10 fails on the code.  With [a = malloc (9)] and [p = malloc (24)] the
    header of [p] starts at the last byte of [a].  After the caller stores
    120 in that byte of its own block, the header of [p] holds 120, and
    [realloc (p, 50)], which asks for more than the 24 bytes [p] was
    allocated with, returns [p] itself. *)
Theorem realloc_grow_returns_same_block :
  value_of (clobbered_header_scenario 120 50 fresh) =
    Some (heap_base + 32, heap_base + 48, 120, heap_base + 48) /\
  block_start (heap_base + 48) < block_end (heap_base + 32) 9.
Proof.
  split; [vm_compute; reflexivity|].
  unfold block_start, block_end, sizeof_header, heap_base. lia.
Qed.


(* ================================================================== *)
(** ** Reservation of the region *)

Lemma HEAP_SIZE_value : HEAP_SIZE = 2147483648.
Proof. reflexivity. Qed.

(** The globals after the first call of [init]. *)
Lemma init_reserves_region_aux heap s :
  start_addr s = 0 ->
  0 < heap ->
  heap + HEAP_SIZE <= INTPTR_MAX ->
  exists s0,
    init (Some heap) s = Done tt s0 /\
    start_addr s0 = heap /\
    free_addr s0 = heap /\
    end_addr s0 = heap + 2147483648.
Proof.
  intros H0 Hh Hfit. rewrite HEAP_SIZE_value in Hfit.
  assert (I : in_intptr heap)
    by (unfold in_intptr, INTPTR_MIN, INTPTR_MAX in *; lia).
  assert (J : in_intptr (heap + 2147483648))
    by (unfold in_intptr, INTPTR_MIN, INTPTR_MAX in *; lia).
  eexists. unfold init, bind, get, put. rewrite H0. cbn [Z.eqb].
  split; [reflexivity|]. cbn [start_addr free_addr end_addr].
  rewrite HEAP_SIZE_value, (to_intptr_id _ I), (to_intptr_id _ J).
  repeat split.
Qed.

(** X1. The first call of [init], when [mmap] answers a positive address
    [heap] with [heap + 2 GiB] within [intptr_t]: the region is
    [[heap, heap + 2147483648)], the frontier is at its start, every byte of
    the region reads zero and no byte outside it has changed. *)
Theorem init_reserves_region s heap :
  start_addr s = 0 ->
  0 < heap ->
  heap + HEAP_SIZE <= INTPTR_MAX ->
  exists s0,
    init (Some heap) s = Done tt s0 /\
    start_addr s0 = heap /\
    free_addr s0 = heap /\
    end_addr s0 = heap + 2147483648 /\
    (forall a, heap <= a < heap + 2147483648 -> load_byte (mem s0) a = 0) /\
    (forall a, a < heap \/ heap + 2147483648 <= a -> mem s0 a = mem s a).
Proof.
  intros H0 Hh Hfit. rewrite HEAP_SIZE_value in Hfit.
  assert (I : in_intptr heap)
    by (unfold in_intptr, INTPTR_MIN, INTPTR_MAX in *; lia).
  assert (J : in_intptr (heap + 2147483648))
    by (unfold in_intptr, INTPTR_MIN, INTPTR_MAX in *; lia).
  eexists. unfold init, bind, get, put. rewrite H0. cbn [Z.eqb].
  split; [reflexivity|]. cbn [start_addr free_addr end_addr mem].
  rewrite HEAP_SIZE_value, (to_intptr_id _ I), (to_intptr_id _ J).
  repeat split.
  - intros a Ha. unfold load_byte, map_zero.
    destruct (Z.leb_spec heap a); [|lia].
    destruct (Z.ltb_spec a (heap + 2147483648)); [|lia]. reflexivity.
  - intros a Ha. unfold map_zero.
    destruct (Z.leb_spec heap a); destruct (Z.ltb_spec a (heap + 2147483648));
      cbn [andb]; try reflexivity; lia.
Qed.

(** X2. [init] is idempotent: whatever [mmap] answers (short of the address
    0), calling [init] a second time changes nothing, so two calls in a row
    are one call. *)
Theorem init_idempotent mm s :
  (forall heap, mm = Some heap -> to_intptr heap <> 0) ->
  (init mm ;;; init mm) s = init mm s.
Proof.
  intros Hz. unfold bind at 1.
  destruct (Z.eq_dec (start_addr s) 0) as [E|E].
  - unfold init at 1 3, bind, get. rewrite E. cbn [Z.eqb].
    destruct mm as [heap|]; [|reflexivity].
    unfold put. cbv beta iota. apply init_reserved. cbn [start_addr].
    now apply Hz.
  - rewrite (init_reserved mm s E). apply init_reserved. exact E.
Qed.

(** X3. When [mmap] fails on a process that has no region yet, every entry
    point that allocates ends the process: [malloc] (also for size 0),
    [calloc], [realloc] of a null pointer and [realloc] that has to grow a
    block.  [free], [realloc (p, 0)] and a [realloc] that fits in the old
    block return without asking for the region. *)
Theorem mmap_failure_is_fatal s :
  start_addr s = 0 ->
  init None s = Fatal /\
  (forall size, malloc None size s = Fatal) /\
  (forall nmemb size, calloc None nmemb size s = Fatal) /\
  (forall size, realloc None NULL size s = Fatal) /\
  (forall p size, p <> NULL -> header_size (mem s) (header_of p) < size ->
                  realloc None p size s = Fatal) /\
  (forall p, free p s = Done tt s) /\
  (forall p, p <> NULL -> realloc None p 0 s = Done NULL s) /\
  (forall p size, p <> NULL -> 0 < size <= header_size (mem s) (header_of p) ->
                  realloc None p size s = Done p s).
Proof.
  intros H0.
  assert (Hi : init None s = Fatal).
  { unfold init, bind, get. rewrite H0. reflexivity. }
  assert (Hm : forall size, malloc None size s = Fatal).
  { intros size. now apply malloc_fatal. }
  split; [exact Hi|]. split; [exact Hm|].
  split; [|split; [|split; [|split; [|split]]]].
  - intros nmemb size. rewrite calloc_unfold, Hm. reflexivity.
  - intros size. unfold realloc. change (NULL =? NULL) with true.
    cbv iota. apply Hm.
  - intros p size Hp Hlt. rewrite (realloc_grow None s p size Hp Hlt), Hm.
    reflexivity.
  - reflexivity.
  - intros p Hp. unfold realloc.
    destruct (Z.eqb_spec p NULL); [contradiction | reflexivity].
  - intros p size Hp Hs. unfold realloc.
    destruct (Z.eqb_spec p NULL); [contradiction|].
    destruct (Z.eqb_spec size 0); [lia|].
    unfold bind, get.
    destruct (Z.leb_spec size (header_size (mem s) (header_of p)));
      [reflexivity | lia].
Qed.

(* ================================================================== *)
(** ** Pointers handed out *)

(** Whatever the state and the size, the value [malloc] returns is null or
    the padded address plus 8. *)
Lemma malloc_value mm size s p s' :
  malloc mm size s = Done p s' ->
  p = NULL \/ exists s0, init mm s = Done tt s0 /\
                         p = to_size (pad (free_addr s0) + sizeof_header).
Proof.
  intros H. destruct (init_cases mm s) as [F|[s0 Hi]].
  - rewrite (malloc_fatal mm s size F) in H. discriminate.
  - destruct (Z.eq_dec size 0) as [E|E].
    + subst size. rewrite (malloc_zero mm s s0 Hi) in H.
      inversion H. now left.
    + rewrite (malloc_nonzero mm s s0 size Hi E) in H.
      destruct (exhausted s0 size); inversion H; [now left|].
      right. exists s0. split; [exact Hi | reflexivity].
Qed.

(** X4. No misaligned pointer ever comes out of [malloc] or [calloc]: for
    every state (reserved or not, frontier in range or not) and every
    argument, the value returned is a multiple of 16 (null included). *)
Theorem allocation_is_16_aligned mm s :
  (forall size p s', malloc mm size s = Done p s' -> p mod 16 = 0) /\
  (forall nmemb size p s',
     calloc mm nmemb size s = Done p s' -> p mod 16 = 0).
Proof.
  assert (A : forall size p s', malloc mm size s = Done p s' -> p mod 16 = 0).
  { intros size p s' H.
    destruct (malloc_value mm size s p s' H) as [E|(s0 & _ & E)]; subst p.
    - reflexivity.
    - rewrite to_size_mod16, Z.add_mod, pad_mod16 by lia. reflexivity. }
  split; [exact A|].
  intros nmemb size p s' H. rewrite calloc_unfold in H.
  destruct (malloc mm (to_size (nmemb * size)) s) as [q s1|] eqn:E;
    [|discriminate].
  destruct (q =? NULL); inversion H; subst; apply (A _ _ _ E).
Qed.

(** X5. Releasing never makes a block available again.  On a reserved
    region whose frontier is at or above [p], [free (p)] and
    [realloc (p, 0)] leave the state as it is, [realloc (p, 0)] returns
    null, and a [malloc] after either of them behaves as it would without
    them; the pointer it returns, when not null, is above the frontier and
    so is not [p]. *)
Theorem release_never_reuses mm s p size :
  start_addr s <> 0 ->
  0 < p <= free_addr s ->
  free_addr s <= INTPTR_MAX - 32 ->
  free p s = Done tt s /\
  realloc mm p 0 s = Done NULL s /\
  (free p ;;; malloc mm size) s = malloc mm size s /\
  (realloc mm p 0 ;;; malloc mm size) s = malloc mm size s /\
  forall q s', malloc mm size s = Done q s' -> q <> NULL ->
               free_addr s < q /\ q <> p.
Proof.
  intros Hr Hp Hf.
  assert (R0 : realloc mm p 0 s = Done NULL s).
  { unfold realloc. destruct (Z.eqb_spec p NULL) as [E|E];
      [unfold NULL in E; lia | reflexivity]. }
  split; [reflexivity|]. split; [exact R0|]. split; [reflexivity|].
  split; [unfold bind; rewrite R0; reflexivity|].
  intros q s' H Hq.
  destruct (malloc_value mm size s q s' H) as [E|(s0 & Hi & E)];
    [contradiction|].
  rewrite (init_reserved mm s Hr) in Hi. inversion Hi; subst s0.
  assert (Hb : 0 <= free_addr s <= INTPTR_MAX - 32) by lia.
  destruct (block_ptr_exact _ Hb) as (Eb & _ & _).
  destruct (pad_bounds _ Hb) as [B _].
  rewrite Eb in E. unfold sizeof_header in E. lia.
Qed.

(* ================================================================== *)
(** ** Calls on a state the allocator keeps *)

Lemma region_ok_frontier s :
  region_ok s -> 0 <= free_addr s <= INTPTR_MAX - 32.
Proof.
  unfold region_ok, MODEST, INTPTR_MAX. intros (H1 & H2 & H3 & H4 & H5). lia.
Qed.

Lemma region_ok_reserved s : region_ok s -> start_addr s <> 0.
Proof. unfold region_ok. intros (H1 & _). lia. Qed.

(** A frontier that is already a header place is left where it is. *)
Lemma pad_fixed f : 0 <= f <= INTPTR_MAX - 32 -> f mod 16 = 8 -> pad f = f.
Proof.
  intros H E. unfold pad. rewrite c_rem_nonneg by lia. rewrite E.
  change (8 <? 8) with false. cbv iota.
  replace (f + 8 - 8) with f by lia.
  apply to_intptr_id. unfold in_intptr, INTPTR_MIN, INTPTR_MAX in *. lia.
Qed.

(** The header of the next block lies in the region or just above its end,
    never below its start. *)
Lemma region_ok_pad s :
  region_ok s ->
  start_addr s + 8 <= pad (free_addr s) <= end_addr s + 24 /\
  free_addr s - 7 <= pad (free_addr s).
Proof.
  intros H. pose proof (region_ok_frontier s H) as Hf.
  destruct H as (H1 & H2 & H3 & H4 & H5).
  destruct (pad_bounds _ Hf) as [B P]. pose proof (pad_mod16 (free_addr s)) as E.
  split; [split|lia].
  - rewrite (Z.mod_eq (pad (free_addr s)) 16) in E by lia.
    rewrite (Z.mod_eq (start_addr s) 16) in H2 by lia. lia.
  - destruct H5 as [H5|[H5 H6]]; [lia|].
    rewrite (pad_fixed _ Hf H6). lia.
Qed.

(** For a modest request the bump is exact. *)
Lemma bump_exact s size :
  region_ok s -> 0 <= size < MODEST ->
  new_free_addr (pad (free_addr s)) size =
    pad (free_addr s) + size + sizeof_header /\
  exhausted s size = (end_addr s <? pad (free_addr s) + size + sizeof_header).
Proof.
  intros H Hs. pose proof (region_ok_frontier s H) as Hf.
  destruct (region_ok_pad s H) as [[L U] _].
  destruct H as (H1 & H2 & H3 & H4 & H5).
  assert (Hfit : pad (free_addr s) + size + sizeof_header <= INTPTR_MAX)
    by (unfold sizeof_header, MODEST, INTPTR_MAX in *; lia).
  split; [|apply exhausted_in_range; [exact Hf | lia | exact Hfit]].
  unfold new_free_addr, total_size, sizeof_header, MODEST, INTPTR_MAX in *.
  rewrite (to_size_id (size + 8)) by (unfold in_size, SIZE_MOD; lia).
  rewrite to_intptr_id by (unfold in_intptr, INTPTR_MIN, INTPTR_MAX; lia).
  lia.
Qed.

(** A granted request, on a state the allocator keeps. *)
Lemma malloc_granted mm s size :
  region_ok s -> 0 < size < MODEST -> exhausted s size = false ->
  malloc mm size s =
    Done (pad (free_addr s) + sizeof_header) (after_success s size) /\
  free_addr (after_success s size) =
    pad (free_addr s) + sizeof_header + size /\
  pad (free_addr s) + sizeof_header + size <= end_addr s /\
  mem (after_success s size) =
    store_le header_bytes (mem s) (pad (free_addr s)) size.
Proof.
  intros H Hs Hx. pose proof (region_ok_frontier s H) as Hf.
  destruct (block_ptr_exact _ Hf) as (Eb & Eh & _).
  destruct (bump_exact s size H ltac:(lia)) as [Hb He].
  rewrite (malloc_nonzero mm s s size (init_reserved mm s (region_ok_reserved s H)))
    by lia.
  rewrite Hx, Eb. split; [reflexivity|].
  unfold after_success. cbn [free_addr mem set_mem set_free_addr].
  rewrite Hb, Eh. rewrite Hx in He. symmetry in He.
  apply Z.ltb_ge in He. repeat split; lia.
Qed.

(** A refused request, on a state the allocator keeps. *)
Lemma malloc_refused mm s size :
  region_ok s -> 0 < size < MODEST -> exhausted s size = true ->
  malloc mm size s = Done NULL (after_failure s) /\
  end_addr s < pad (free_addr s) + sizeof_header + size.
Proof.
  intros H Hs Hx.
  destruct (bump_exact s size H ltac:(lia)) as [Hb He].
  rewrite (malloc_nonzero mm s s size (init_reserved mm s (region_ok_reserved s H)))
    by lia.
  rewrite Hx. split; [reflexivity|].
  rewrite Hx in He. symmetry in He. apply Z.ltb_lt in He. lia.
Qed.

(** Both ways out of [malloc] keep the shape of the globals. *)
Lemma after_success_ok s size :
  region_ok s -> 0 < size < MODEST -> exhausted s size = false ->
  region_ok (after_success s size).
Proof.
  intros H Hs Hx.
  destruct (malloc_granted None s size H Hs Hx) as (_ & Ef & Hle & _).
  destruct (region_ok_pad s H) as [[L U] _].
  unfold region_ok in *. rewrite Ef.
  unfold after_success. cbn [start_addr end_addr set_mem set_free_addr].
  destruct H as (H1 & H2 & H3 & H4 & H5). unfold sizeof_header in *.
  split; [assumption|]. split; [assumption|]. split; [assumption|].
  split; [lia|]. left. lia.
Qed.

Lemma after_failure_ok s : region_ok s -> region_ok (after_failure s).
Proof.
  intros H. destruct (region_ok_pad s H) as [[L U] _].
  pose proof (pad_mod16 (free_addr s)) as E.
  unfold region_ok in *.
  unfold after_failure. cbn [free_addr start_addr end_addr set_free_addr].
  destruct H as (H1 & H2 & H3 & H4 & H5).
  split; [assumption|]. split; [assumption|]. split; [assumption|].
  split; [lia|]. right. split; [lia | exact E].
Qed.

(** When the remainder of the frontier is at most 8, the header of the next
    block is placed at or above the frontier. *)
Lemma pad_at_or_above f :
  0 <= f <= INTPTR_MAX - 32 -> f mod 16 <= 8 -> f <= pad f.
Proof.
  intros H R. destruct (Z.eq_dec (f mod 16) 8) as [E|E].
  - rewrite (pad_fixed f H E). lia.
  - unfold pad. rewrite c_rem_nonneg by lia.
    destruct (Z.ltb_spec (f mod 16) 8); [|lia].
    pose proof (Z.mod_pos_bound f 16 ltac:(lia)).
    unfold INTPTR_MAX in H.
    rewrite to_intptr_id by (unfold in_intptr, INTPTR_MIN, INTPTR_MAX; lia).
    lia.
Qed.

(** A load reads only the bytes it covers. *)
Lemma load_le_ext n : forall m1 m2 a,
  (forall i, a <= i < a + Z.of_nat n -> m1 i = m2 i) ->
  load_le n m1 a = load_le n m2 a.
Proof.
  induction n as [|n IH]; intros m1 m2 a H; cbn [load_le]; [reflexivity|].
  unfold load_byte. rewrite (H a) by lia.
  rewrite (IH m1 m2 (a + 1)); [reflexivity|].
  intros i Hi. apply H. lia.
Qed.

(** X6. A granted request, on a state the allocator keeps and for a modest
    size: the pointer lies above the old frontier and at least 16 bytes into
    the region, the new frontier is the end of the block ([p + size]),
    strictly above the old one and not above the end of the region, the
    bounds are kept, and no byte of memory has changed except the 8 header
    bytes just below the pointer. *)
Theorem malloc_granted_frame mm s size :
  region_ok s ->
  0 < size < MODEST ->
  exhausted s size = false ->
  exists p s',
    malloc mm size s = Done p s' /\
    free_addr s < p /\
    start_addr s + 16 <= p /\
    free_addr s' = p + size /\
    free_addr s < free_addr s' <= end_addr s /\
    start_addr s' = start_addr s /\
    end_addr s' = end_addr s /\
    forall a, a < p - sizeof_header \/ p <= a -> mem s' a = mem s a.
Proof.
  intros H Hs Hx.
  destruct (malloc_granted mm s size H Hs Hx) as (Em & Ef & Hle & Ememo).
  destruct (region_ok_pad s H) as [[L U] B].
  exists (pad (free_addr s) + sizeof_header), (after_success s size).
  split; [exact Em|]. rewrite Ef, Ememo. unfold sizeof_header in *.
  split; [lia|]. split; [lia|]. split; [reflexivity|]. split; [lia|].
  split; [reflexivity|]. split; [reflexivity|].
  intros a [Ha|Ha].
  - apply store_le_below. lia.
  - apply store_le_above. unfold header_bytes. lia.
Qed.

(** X7. Two requests granted one after the other, on a state the allocator
    keeps: the second header starts at the padded end of the first block,
    and the two blocks (headers included) are disjoint exactly when the
    first size leaves a remainder of at most 8 modulo 16.  For a remainder
    [r] above 8 the second header starts [r - 8] bytes before the end of
    the first block. *)
Theorem consecutive_blocks_disjoint_iff mm s size1 size2 p1 s1 p2 s2 :
  region_ok s ->
  0 < size1 < MODEST ->
  0 < size2 < MODEST ->
  malloc mm size1 s = Done p1 s1 ->
  p1 <> NULL ->
  malloc mm size2 s1 = Done p2 s2 ->
  p2 <> NULL ->
  block_start p2 = pad (block_end p1 size1) /\
  (blocks_disjoint p1 size1 p2 size2 <-> size1 mod 16 <= 8) /\
  (8 < size1 mod 16 ->
   block_start p2 = block_end p1 size1 - (size1 mod 16 - 8)).
Proof.
  intros H Hs1 Hs2 M1 N1 M2 N2.
  destruct (exhausted s size1) eqn:X1.
  { destruct (malloc_refused mm s size1 H Hs1 X1) as [E _].
    rewrite E in M1. inversion M1. congruence. }
  destruct (malloc_granted mm s size1 H Hs1 X1) as (E1 & Ef1 & Hle1 & _).
  rewrite E1 in M1. inversion M1. subst p1 s1. clear M1.
  pose proof (after_success_ok s size1 H Hs1 X1) as H'.
  destruct (exhausted (after_success s size1) size2) eqn:X2.
  { destruct (malloc_refused mm _ size2 H' Hs2 X2) as [E _].
    rewrite E in M2. inversion M2. congruence. }
  destruct (malloc_granted mm _ size2 H' Hs2 X2) as (E2 & _ & _ & _).
  rewrite E2 in M2. inversion M2. subst p2 s2. clear M2.
  change (new_free_addr (pad (free_addr s)) size1)
    with (free_addr (after_success s size1)) in *.
  rewrite Ef1. pose proof (region_ok_frontier _ H') as Hf'. rewrite Ef1 in Hf'.
  destruct (region_ok_pad s H) as [[L U] B].
  set (q := pad (free_addr s) + sizeof_header) in *.
  assert (Q : (q + size1) mod 16 = size1 mod 16).
  { unfold q, sizeof_header. rewrite Z.add_mod by lia.
    rewrite (Z.add_mod (pad (free_addr s)) 8), pad_mod16 by lia.
    change ((8 + 8 mod 16) mod 16) with 0. rewrite Z.add_0_l.
    apply Z.mod_mod. lia. }
  unfold blocks_disjoint, block_start, block_end.
  replace (pad (q + size1) + sizeof_header - sizeof_header)
    with (pad (q + size1)) by lia.
  split; [reflexivity|].
  destruct (Z.le_gt_cases (size1 mod 16) 8) as [R|R].
  - pose proof (pad_at_or_above (q + size1) Hf' ltac:(lia)).
    split; [|lia]. split; [intros _; exact R | intros _; left; lia].
  - pose proof (pad_below_frontier (q + size1) Hf' ltac:(lia)) as P.
    rewrite Q in P. split; [|intros _; exact P].
    unfold sizeof_header in *.
    pose proof (Z.mod_pos_bound size1 16 ltac:(lia)).
    split; [intros [D|D]; lia | lia].
Qed.

(** X8. A [realloc] that grows a block, on a state the allocator keeps: if
    the old block ends at or below the place of the new header and the
    request is granted, the result [q] is a fresh 16-aligned block above the
    frontier whose header holds [new_size], its first [old_size] bytes are
    the bytes of the old block, and the old block, header included, is left
    as it was. *)
Theorem realloc_grow_copies mm s p old_size new_size :
  region_ok s ->
  8 <= p ->
  header_size (mem s) (header_of p) = old_size ->
  old_size < new_size < MODEST ->
  p + old_size <= pad (free_addr s) ->
  exhausted s new_size = false ->
  exists q s',
    realloc mm p new_size s = Done q s' /\
    q = pad (free_addr s) + sizeof_header /\
    q mod 16 = 0 /\
    free_addr s < q /\
    header_size (mem s') (header_of q) = new_size /\
    (forall i, 0 <= i < old_size -> mem s' (q + i) = mem s (p + i)) /\
    (forall i, 0 <= i < old_size -> mem s' (p + i) = mem s (p + i)) /\
    header_size (mem s') (header_of p) = old_size.
Proof.
  intros H Hp Ho Hn Hend Hx.
  pose proof (header_size_nonneg (mem s) (header_of p)) as H0.
  rewrite Ho in H0.
  pose proof (region_ok_frontier s H) as Hf.
  destruct (block_ptr_exact _ Hf) as (_ & _ & Eo).
  destruct (region_ok_pad s H) as [[L U] B].
  destruct (malloc_granted mm s new_size H ltac:(lia) Hx) as (Em & _ & _ & Ememo).
  assert (Hp' : p <> NULL) by (unfold NULL; lia).
  assert (Hup : pad (free_addr s) <= 2 ^ 61 + 24).
  { destruct H as (_ & _ & H3 & _). unfold MODEST in H3. lia. }
  assert (Ehp : header_of p = p - 8).
  { unfold header_of, sizeof_header, INTPTR_MAX in *.
    rewrite to_intptr_id by (unfold in_intptr, INTPTR_MIN, INTPTR_MAX; lia).
    apply to_size_id. unfold in_size, SIZE_MOD. lia. }
  set (q := pad (free_addr s) + sizeof_header) in *.
  exists q. eexists.
  rewrite (realloc_grow mm s p new_size Hp') by lia. rewrite Em.
  assert (Hq : (q =? NULL) = false)
    by (apply Z.eqb_neq; unfold q, NULL, sizeof_header; lia).
  rewrite Hq. split; [reflexivity|]. split; [reflexivity|].
  cbn [mem set_mem]. rewrite Ememo, Ho.
  unfold q, sizeof_header in *. split.
  { rewrite Z.add_mod, pad_mod16 by lia. reflexivity. }
  split; [lia|]. split.
  { rewrite Eo. unfold header_size.
    rewrite (load_le_ext header_bytes _
               (store_le header_bytes (mem s) (pad (free_addr s)) new_size)).
    - apply header_size_written. unfold in_size, SIZE_MOD, MODEST in *. lia.
    - intros i Hi. unfold memcpy, header_bytes in *.
      destruct (Z.leb_spec (pad (free_addr s) + 8) i); [lia | reflexivity]. }
  split.
  { intros i Hi. unfold memcpy.
    destruct (Z.leb_spec (pad (free_addr s) + 8) (pad (free_addr s) + 8 + i));
      [|lia].
    destruct (Z.ltb_spec (pad (free_addr s) + 8 + i)
                         (pad (free_addr s) + 8 + old_size)); [|lia].
    cbn [andb].
    replace (p + (pad (free_addr s) + 8 + i - (pad (free_addr s) + 8)))
      with (p + i) by lia.
    apply store_le_below. lia. }
  split.
  { intros i Hi. unfold memcpy.
    destruct (Z.leb_spec (pad (free_addr s) + 8) (p + i)); [lia|].
    cbn [andb]. apply store_le_below. lia. }
  rewrite Ehp. unfold header_size.
  rewrite (load_le_ext header_bytes _ (mem s)).
  - rewrite <- Ehp. exact Ho.
  - intros i Hi. unfold memcpy, header_bytes in *.
    destruct (Z.leb_spec (pad (free_addr s) + 8) i); [lia|].
    cbn [andb]. apply store_le_below. lia.
Qed.

(** X9. Refusal is stable.  Once a modest request has been refused, on a
    state the allocator keeps, every request at least as large is refused
    too, and these refused calls leave the state exactly as the first
    refusal left it. *)
Theorem refusal_is_stable mm s size size' :
  region_ok s ->
  0 < size <= size' ->
  size' < MODEST ->
  exhausted s size = true ->
  exists s1,
    malloc mm size s = Done NULL s1 /\
    malloc mm size' s1 = Done NULL s1.
Proof.
  intros H Hs Hs' Hx.
  destruct (malloc_refused mm s size H ltac:(lia) Hx) as [Em Hgt].
  exists (after_failure s). split; [exact Em|].
  pose proof (after_failure_ok s H) as H1.
  pose proof (region_ok_frontier s H) as Hf.
  assert (Ep : pad (free_addr (after_failure s)) = pad (free_addr s)).
  { unfold after_failure. cbn [free_addr set_free_addr].
    apply pad_idempotent. exact Hf. }
  assert (Hx' : exhausted (after_failure s) size' = true).
  { destruct (bump_exact _ size' H1 ltac:(lia)) as [_ He]. rewrite He, Ep.
    unfold after_failure. cbn [end_addr set_free_addr].
    apply Z.ltb_lt. lia. }
  destruct (malloc_refused mm _ size' H1 ltac:(lia) Hx') as [Em' _].
  rewrite Em'. f_equal. unfold after_failure at 1. rewrite Ep. reflexivity.
Qed.

(** X10. [calloc] of nothing: when the product of count and size is 0 in
    [size_t] (one of them is 0, or the product is a multiple of 2^64),
    [calloc] on a reserved region returns null and leaves the state as it
    is. *)
Theorem calloc_zero_product mm s nmemb size :
  start_addr s <> 0 ->
  to_size (nmemb * size) = 0 ->
  calloc mm nmemb size s = Done NULL s.
Proof.
  intros Hr Hz. rewrite calloc_unfold, Hz.
  rewrite (malloc_zero mm s s (init_reserved mm s Hr)). reflexivity.
Qed.

(** The header of a granted block survives the copy that [realloc] makes
    into the block. *)
Lemma granted_header_after_copy s size src n :
  region_ok s -> 0 < size < MODEST ->
  header_size
    (memcpy (store_le header_bytes (mem s) (pad (free_addr s)) size)
            (pad (free_addr s) + sizeof_header) src n)
    (header_of (pad (free_addr s) + sizeof_header)) = size.
Proof.
  intros H Hs. pose proof (region_ok_frontier s H) as Hf.
  destruct (block_ptr_exact _ Hf) as (_ & _ & Eo). rewrite Eo.
  unfold header_size.
  rewrite (load_le_ext header_bytes _
             (store_le header_bytes (mem s) (pad (free_addr s)) size)).
  - apply header_size_written. unfold in_size, SIZE_MOD, MODEST in *. lia.
  - intros i Hi. unfold memcpy, header_bytes, sizeof_header in *.
    destruct (Z.leb_spec (pad (free_addr s) + 8) i); [lia | reflexivity].
Qed.

(** X11. What [realloc] returns can hold what was asked for.  On a state the
    allocator keeps and for a modest [size > 0], whichever way [realloc]
    takes (null pointer, block large enough, block grown), a non-null result
    is a pointer whose header records at least [size] bytes. *)
Theorem realloc_result_holds_size mm s p size q s' :
  region_ok s ->
  0 < size < MODEST ->
  realloc mm p size s = Done q s' ->
  q <> NULL ->
  size <= header_size (mem s') (header_of q).
Proof.
  intros H Hs R Hq.
  pose proof (region_ok_frontier s H) as Hf.
  destruct (block_ptr_exact _ Hf) as (_ & _ & Eo).
  assert (G : forall q1 s1, malloc mm size s = Done q1 s1 -> q1 <> NULL ->
            q1 = pad (free_addr s) + sizeof_header /\
            s1 = after_success s size).
  { intros q1 s1 M N. destruct (exhausted s size) eqn:X.
    - destruct (malloc_refused mm s size H Hs X) as [E _].
      rewrite E in M. inversion M. congruence.
    - destruct (malloc_granted mm s size H Hs X) as (E & _).
      rewrite E in M. inversion M. auto. }
  destruct (Z.eq_dec p NULL) as [Ep|Ep].
  - subst p. unfold realloc in R. change (NULL =? NULL) with true in R.
    cbv iota in R. destruct (G q s' R Hq) as [-> ->].
    rewrite Eo. unfold after_success. cbn [mem set_mem].
    rewrite (proj1 (proj2 (block_ptr_exact _ Hf))).
    rewrite header_size_written; [lia|].
    unfold in_size, SIZE_MOD, MODEST in *. lia.
  - destruct (Z.le_gt_cases size (header_size (mem s) (header_of p))) as [L|L].
    + unfold realloc in R.
      destruct (Z.eqb_spec p NULL); [contradiction|].
      destruct (Z.eqb_spec size 0); [lia|].
      unfold bind, get in R.
      destruct (Z.leb_spec size (header_size (mem s) (header_of p))); [|lia].
      inversion R. subst. exact L.
    + rewrite (realloc_grow mm s p size Ep ltac:(lia)) in R.
      destruct (malloc mm size s) as [q1 s1|] eqn:M; [|discriminate].
      destruct (Z.eqb_spec q1 NULL) as [E|E].
      * inversion R. congruence.
      * destruct (G q1 s1 eq_refl E) as [-> ->].
        injection R as <- <-. cbn [mem set_mem].
        unfold after_success. cbn [mem set_mem].
        rewrite (proj1 (proj2 (block_ptr_exact _ Hf))).
        rewrite (granted_header_after_copy s size p _ H Hs). lia.
Qed.

(* ================================================================== *)
(** ** Sequences of calls *)

(** The three ways [realloc] can take. *)
Lemma realloc_cases mm p size s :
  realloc mm p size s = malloc mm size s \/
  (exists v, realloc mm p size s = Done v s) \/
  (header_size (mem s) (header_of p) < size /\
   realloc mm p size s =
     match malloc mm size s with
     | Done new_ptr s1 =>
         if new_ptr =? NULL then Done new_ptr s1
         else Done new_ptr
                (set_mem s1 (memcpy (mem s1) new_ptr p
                               (header_size (mem s) (header_of p))))
     | Fatal => Fatal
     end).
Proof.
  destruct (Z.eq_dec p NULL) as [Ep|Ep].
  - left. subst p. unfold realloc. change (NULL =? NULL) with true.
    reflexivity.
  - destruct (Z.le_gt_cases size (header_size (mem s) (header_of p))) as [L|L].
    + right. left. unfold realloc.
      destruct (Z.eqb_spec p NULL); [contradiction|].
      destruct (Z.eqb_spec size 0); [now exists NULL|].
      unfold bind, get.
      destruct (Z.leb_spec size (header_size (mem s) (header_of p))); [|lia].
      now exists p.
    + right. right. split; [lia|]. apply realloc_grow; [exact Ep | lia].
Qed.


(** On a state the allocator keeps, a modest [malloc] returns, keeps the
    shape and the bounds, and writes nothing outside the region; a non-null
    result is a block inside the region. *)
Lemma malloc_keeps_region mm s size :
  region_ok s -> 0 <= size < MODEST ->
  exists p s',
    malloc mm size s = Done p s' /\
    region_ok s' /\
    start_addr s' = start_addr s /\ end_addr s' = end_addr s /\
    (forall a, outside s a -> mem s' a = mem s a) /\
    (p <> NULL -> start_addr s + 16 <= p /\ p + size <= end_addr s).
Proof.
  intros H Hs. pose proof (init_reserved mm s (region_ok_reserved s H)) as Hi.
  destruct (Z.eq_dec size 0) as [E|E].
  { subst. rewrite (malloc_zero mm s s Hi). exists NULL, s.
    split; [reflexivity|]. split; [exact H|].
    split; [reflexivity|]. split; [reflexivity|].
    split; [reflexivity | congruence]. }
  destruct (exhausted s size) eqn:X.
  - destruct (malloc_refused mm s size H ltac:(lia) X) as [Em _].
    exists NULL, (after_failure s). split; [exact Em|].
    split; [now apply after_failure_ok|].
    split; [reflexivity|]. split; [reflexivity|].
    split; [reflexivity | congruence].
  - destruct (malloc_granted mm s size H ltac:(lia) X) as (Em & Ef & Hle & Ememo).
    destruct (region_ok_pad s H) as [[L U] B].
    eexists _, _. split; [exact Em|].
    split; [apply after_success_ok; [exact H | lia | exact X]|].
    split; [reflexivity|]. split; [reflexivity|].
    unfold sizeof_header in *. split; [|intros _; lia].
    intros a [Ha|Ha]; rewrite Ememo.
    + apply store_le_below. lia.
    + apply store_le_above. unfold header_bytes. lia.
Qed.

Lemma region_ok_set_mem s m : region_ok s -> region_ok (set_mem s m).
Proof. intros H. exact H. Qed.

(** One step on a state the allocator keeps: it returns, keeps the shape and
    the bounds, and a call of the allocator writes nothing outside the
    region. *)
Lemma run_call_keeps_region mm s c :
  region_ok s -> modest c ->
  exists s',
    run_call mm c s = Done tt s' /\
    region_ok s' /\
    start_addr s' = start_addr s /\ end_addr s' = end_addr s /\
    (is_api c = true -> forall a, outside s a -> mem s' a = mem s a).
Proof.
  intros H Hc. destruct c as [size|ptr|nmemb size|ptr size|addr v];
    unfold modest, call_size in Hc; cbn [run_call is_api].
  - destruct (malloc_keeps_region mm s size H Hc)
      as (p & s' & Em & Hk & Es & Ee & Ho & _).
    exists s'. unfold bind. rewrite Em. auto 6.
  - exists s. auto 6.
  - destruct (malloc_keeps_region mm s _ H Hc)
      as (p & s1 & Em & Hk & Es & Ee & Ho & Hin).
    unfold bind. rewrite calloc_unfold, Em.
    destruct (Z.eqb_spec p NULL) as [E|E].
    + exists s1. auto 6.
    + eexists. split; [reflexivity|]. split; [exact Hk|].
      split; [exact Es|]. split; [exact Ee|].
      intros _ a Ha. cbn [mem set_mem]. destruct (Hin E) as [Lp Up].
      unfold memset, outside in *.
      destruct (Z.leb_spec p a); destruct (Z.ltb_spec a (p + to_size (nmemb * size)));
        cbn [andb]; try (apply Ho; exact Ha); lia.
  - destruct (malloc_keeps_region mm s size H Hc)
      as (p & s1 & Em & Hk & Es & Ee & Ho & Hin).
    unfold bind.
    destruct (realloc_cases mm ptr size s) as [R|[[v R]|[Hlt R]]]; rewrite R.
    + rewrite Em. exists s1. auto 6.
    + exists s. auto 6.
    + rewrite Em. destruct (Z.eqb_spec p NULL) as [E|E].
      * exists s1. auto 6.
      * eexists. split; [reflexivity|]. split; [exact Hk|].
        split; [exact Es|]. split; [exact Ee|].
        intros _ a Ha. cbn [mem set_mem]. destruct (Hin E) as [Lp Up].
        unfold memcpy, outside in *.
        destruct (Z.leb_spec p a);
          destruct (Z.ltb_spec a (p + header_size (mem s) (header_of ptr)));
          cbn [andb]; try (apply Ho; exact Ha); lia.
  - eexists. unfold poke, bind, get, put. split; [reflexivity|].
    split; [exact H|]. split; [reflexivity|]. split; [reflexivity|].
    intros C. discriminate C.
Qed.



(** X13. The frontier stays in the region.  From a state the allocator
    keeps, every sequence of steps with modest sizes returns in such a state
    again: the bounds are unchanged and the frontier is not below the start
    of the region and at most 24 bytes above its end. *)
Theorem frontier_stays_in_region mm cs : forall s,
  region_ok s ->
  Forall modest cs ->
  exists s',
    run_calls mm cs s = Done tt s' /\
    region_ok s' /\
    start_addr s' = start_addr s /\ end_addr s' = end_addr s /\
    start_addr s <= free_addr s' <= end_addr s + 24.
Proof.
  induction cs as [|c cs IH]; intros s H Hm; cbn [run_calls].
  - exists s. split; [reflexivity|]. split; [exact H|].
    split; [reflexivity|]. split; [reflexivity|].
    destruct H as (_ & _ & _ & H4 & H5). lia.
  - inversion Hm as [|c' cs' Hc Hcs]; subst.
    destruct (run_call_keeps_region mm s c H Hc) as (s1 & E1 & H1 & Es1 & Ee1 & _).
    destruct (IH s1 H1 Hcs) as (s' & E' & H' & Es' & Ee' & Hf').
    exists s'. unfold bind. rewrite E1. split; [exact E'|].
    split; [exact H'|]. rewrite <- Es1, <- Ee1. auto.
Qed.

(** X14. The allocator writes only inside its region.  From a state the
    allocator keeps, whatever sequence of its calls with modest sizes is
    made (no store of the caller among them), every byte below the start of
    the region or at or above its end is at the end what it was at the
    start. *)
Theorem allocator_writes_inside_region mm cs : forall s,
  region_ok s ->
  Forall modest cs ->
  forallb is_api cs = true ->
  exists s',
    run_calls mm cs s = Done tt s' /\
    forall a, outside s a -> mem s' a = mem s a.
Proof.
  induction cs as [|c cs IH]; intros s H Hm Ha; cbn [run_calls].
  - exists s. auto.
  - inversion Hm as [|c' cs' Hc Hcs]; subst.
    cbn [forallb] in Ha. apply andb_true_iff in Ha. destruct Ha as [Ac Acs].
    destruct (run_call_keeps_region mm s c H Hc) as (s1 & E1 & H1 & Es1 & Ee1 & Ho).
    destruct (IH s1 H1 Hcs Acs) as (s' & E' & Ho').
    exists s'. unfold bind. rewrite E1. split; [exact E'|].
    intros a Hout. rewrite Ho'.
    + apply (Ho Ac). exact Hout.
    + unfold outside in *. rewrite Es1, Ee1. exact Hout.
Qed.

(* ================================================================== *)
(** ** From the start of the process *)

(** [init] on a process whose [mmap] answers a 16-aligned [heap]: the
    region is there afterwards, in the shape the calls keep. *)
Lemma init_kept heap s :
  0 < heap -> heap mod 16 = 0 -> heap + HEAP_SIZE <= MODEST ->
  kept heap s ->
  exists s0,
    init (Some heap) s = Done tt s0 /\
    region_ok s0 /\ start_addr s0 = heap /\ end_addr s0 = heap + HEAP_SIZE /\
    (start_addr s = 0 -> free_addr s0 = heap).
Proof.
  intros Hh Ha Hfit [H0|(Hk & Es & Ee)].
  - destruct (init_reserves_region_aux heap s H0 Hh) as (s0 & Ei & E1 & E2 & E3).
    + unfold MODEST, INTPTR_MAX in *. lia.
    + exists s0. split; [exact Ei|]. rewrite HEAP_SIZE_value in *.
      unfold region_ok. rewrite E1, E2, E3. unfold MODEST in *.
      repeat split; auto; lia.
  - exists s. split; [apply init_reserved; lia|]. split; [exact Hk|].
    split; [exact Es|]. split; [exact Ee|]. intros C. lia.
Qed.

(** [malloc] starts with [init]: it behaves on a state as on the state
    [init] leaves. *)
Lemma malloc_via_init mm s s0 size :
  init mm s = Done tt s0 -> init mm s0 = Done tt s0 ->
  malloc mm size s = malloc mm size s0.
Proof.
  intros Hi Hi0. destruct (Z.eq_dec size 0) as [E|E].
  - subst. now rewrite (malloc_zero mm s s0 Hi), (malloc_zero mm s0 s0 Hi0).
  - now rewrite (malloc_nonzero mm s s0 size Hi E),
                (malloc_nonzero mm s0 s0 size Hi0 E).
Qed.


Lemma malloc_kept heap s size :
  0 < heap -> heap mod 16 = 0 -> heap + HEAP_SIZE <= MODEST ->
  kept heap s -> 0 <= size < MODEST ->
  exists p s',
    malloc (Some heap) size s = Done p s' /\
    region_ok s' /\ start_addr s' = heap /\ end_addr s' = heap + HEAP_SIZE.
Proof.
  intros Hh Ha Hfit Hk Hs.
  destruct (init_kept heap s Hh Ha Hfit Hk) as (s0 & Ei & H0 & Es & Ee & _).
  rewrite (malloc_via_init (Some heap) s s0 size Ei
             (init_reserved _ s0 (region_ok_reserved s0 H0))).
  destruct (malloc_keeps_region (Some heap) s0 size H0 Hs)
    as (p & s' & Em & H' & Es' & Ee' & _).
  exists p, s'. split; [exact Em|]. split; [exact H'|].
  split; congruence.
Qed.

Lemma run_call_kept heap s c :
  0 < heap -> heap mod 16 = 0 -> heap + HEAP_SIZE <= MODEST ->
  kept heap s -> modest c ->
  exists s', run_call (Some heap) c s = Done tt s' /\ kept heap s'.
Proof.
  intros Hh Ha Hfit Hk Hc.
  destruct c as [size|ptr|nmemb size|ptr size|addr v];
    unfold modest, call_size in Hc; cbn [run_call].
  - destruct (malloc_kept heap s size Hh Ha Hfit Hk Hc)
      as (p & s' & Em & H' & Es & Ee).
    exists s'. unfold bind. rewrite Em. split; [reflexivity|]. right. auto.
  - exists s. auto.
  - destruct (malloc_kept heap s _ Hh Ha Hfit Hk Hc)
      as (p & s1 & Em & H' & Es & Ee).
    unfold bind. rewrite calloc_unfold, Em.
    destruct (p =? NULL); eexists; (split; [reflexivity|]); right; auto.
  - destruct (malloc_kept heap s size Hh Ha Hfit Hk Hc)
      as (p & s1 & Em & H' & Es & Ee).
    unfold bind.
    destruct (realloc_cases (Some heap) ptr size s) as [R|[[v R]|[Hlt R]]];
      rewrite R.
    + rewrite Em. exists s1. split; [reflexivity|]. right. auto.
    + exists s. auto.
    + rewrite Em.
      destruct (p =? NULL); eexists; (split; [reflexivity|]); right; auto.
  - eexists. unfold poke, bind, get, put. split; [reflexivity|]. exact Hk.
Qed.

(** X15. A whole run.  In a process whose [mmap] answers a 16-aligned
    address [heap], every program made of calls of the allocator with
    modest sizes and of stores never ends in [ERROR], and at each point it
    either has no region yet or has the region [[heap, heap + 2 GiB)] with
    the frontier between [heap] and 24 bytes above the end. *)
Theorem program_keeps_region heap cs : forall s,
  0 < heap -> heap mod 16 = 0 -> heap + HEAP_SIZE <= MODEST ->
  kept heap s ->
  Forall modest cs ->
  exists s',
    run_calls (Some heap) cs s = Done tt s' /\
    (start_addr s' = 0 \/
     (start_addr s' = heap /\
      end_addr s' = heap + 2147483648 /\
      heap <= free_addr s' <= heap + 2147483648 + 24)).
Proof.
  intros s Hh Ha Hfit Hk Hm.
  assert (G : exists s', run_calls (Some heap) cs s = Done tt s' /\ kept heap s').
  { revert s Hk Hm. induction cs as [|c cs IH]; intros s Hk Hm; cbn [run_calls].
    - exists s. auto.
    - inversion Hm as [|c' cs' Hc Hcs]; subst.
      destruct (run_call_kept heap s c Hh Ha Hfit Hk Hc) as (s1 & E1 & K1).
      destruct (IH s1 K1 Hcs) as (s' & E' & K').
      exists s'. unfold bind. rewrite E1. auto. }
  destruct G as (s' & E & [K|(K & Es & Ee)]); exists s'; (split; [exact E|]).
  - now left.
  - right. rewrite HEAP_SIZE_value in Ee.
    destruct K as (_ & _ & _ & K4 & K5). rewrite Es, Ee in *. lia.
Qed.

(** On a 16-byte boundary the padding is 24. *)
Lemma pad_aligned f :
  0 <= f <= INTPTR_MAX - 32 -> f mod 16 = 0 -> pad f = f + 24.
Proof.
  intros H E. unfold pad. rewrite c_rem_nonneg by lia. rewrite E.
  change (0 <? 8) with true. cbv iota.
  replace (f + 24 - 0) with (f + 24) by lia.
  apply to_intptr_id. unfold in_intptr, INTPTR_MIN, INTPTR_MAX in *. lia.
Qed.

(** A granted request on a frontier that sits on a 16-byte boundary: 24
    bytes of padding, 8 of header, then the block. *)
Lemma malloc_on_boundary mm s size :
  region_ok s -> free_addr s mod 16 = 0 -> 0 < size < MODEST ->
  free_addr s + 32 + size <= end_addr s ->
  malloc mm size s = Done (free_addr s + 32) (after_success s size) /\
  region_ok (after_success s size) /\
  free_addr (after_success s size) = free_addr s + 32 + size /\
  start_addr (after_success s size) = start_addr s /\
  end_addr (after_success s size) = end_addr s.
Proof.
  intros H Ha Hs Hfit. pose proof (region_ok_frontier s H) as Hf.
  pose proof (pad_aligned _ Hf Ha) as Ep.
  destruct (bump_exact s size H ltac:(lia)) as [_ He].
  assert (X : exhausted s size = false).
  { rewrite He, Ep. apply Z.ltb_ge. unfold sizeof_header. lia. }
  destruct (malloc_granted mm s size H Hs X) as (Em & Ef & _ & _).
  rewrite Ep in Em, Ef. unfold sizeof_header in *.
  replace (free_addr s + 24 + 8) with (free_addr s + 32) in * by lia.
  split; [exact Em|]. split; [now apply after_success_ok|].
  split; [exact Ef|]. split; reflexivity.
Qed.

(** X16. The program [main] of [pb-alloc.c].  When [mmap] answers a
    16-aligned address [heap], [main] returns 0 with the region at [heap]
    and the frontier 208 bytes into it: the three requests of 16, 64 and 32
    bytes were granted, each with 24 bytes of padding and 8 of header, and
    the three calls of [free] gave nothing back.  When [mmap] fails, [main]
    ends in the first [malloc]. *)
Theorem main_returns_zero heap m :
  0 < heap -> heap mod 16 = 0 -> heap + HEAP_SIZE <= MODEST ->
  (exists s',
     main (Some heap) (boot m) = Done 0 s' /\
     start_addr s' = heap /\
     end_addr s' = heap + 2147483648 /\
     free_addr s' = heap + 208) /\
  main None (boot m) = Fatal.
Proof.
  intros Hh Ha Hfit. split.
  - destruct (init_kept heap (boot m) Hh Ha Hfit (or_introl eq_refl))
      as (s0 & Ei & H0 & Es0 & Ee0 & Ef0).
    specialize (Ef0 eq_refl). rewrite HEAP_SIZE_value in *.
    pose proof (malloc_via_init (Some heap) (boot m) s0 16 Ei
                  (init_reserved _ s0 (region_ok_reserved s0 H0))) as V.
    assert (A0 : free_addr s0 mod 16 = 0) by (rewrite Ef0; exact Ha).
    destruct (malloc_on_boundary (Some heap) s0 16 H0 A0)
      as (E1 & H1 & F1 & S1 & N1);
      [unfold MODEST; lia | lia |].
    set (s1 := after_success s0 16) in *.
    assert (A1 : free_addr s1 mod 16 = 0).
    { rewrite F1, Ef0. replace (heap + 32 + 16) with (heap + 3 * 16) by lia.
      rewrite Z.mod_add by lia. exact Ha. }
    destruct (malloc_on_boundary (Some heap) s1 64 H1 A1)
      as (E2 & H2 & F2 & S2 & N2);
      [unfold MODEST; lia | lia |].
    set (s2 := after_success s1 64) in *.
    assert (A2 : free_addr s2 mod 16 = 0).
    { rewrite F2, F1, Ef0.
      replace (heap + 32 + 16 + 32 + 64) with (heap + 9 * 16) by lia.
      rewrite Z.mod_add by lia. exact Ha. }
    destruct (malloc_on_boundary (Some heap) s2 32 H2 A2)
      as (E3 & H3 & F3 & S3 & N3);
      [unfold MODEST; lia | lia |].
    exists (after_success s2 32).
    unfold main, bind. rewrite V, E1, E2, E3. cbn [free ret].
    split; [reflexivity|]. split; [congruence|]. split; [congruence|].
    lia.
  - unfold main, bind.
    rewrite (malloc_fatal None (boot m) 16); reflexivity.
Qed.

(* ================================================================== *)
(** ** The properties on the concrete process *)

Lemma init_reserves_region_witness :
  exists s0,
    init (Some heap_base) fresh = Done tt s0 /\
    start_addr s0 = heap_base /\
    free_addr s0 = heap_base /\
    end_addr s0 = heap_base + 2147483648 /\
    (forall a, heap_base <= a < heap_base + 2147483648 ->
               load_byte (mem s0) a = 0) /\
    (forall a, a < heap_base \/ heap_base + 2147483648 <= a ->
               mem s0 a = mem fresh a).
Proof.
  apply (init_reserves_region fresh heap_base).
  - reflexivity.
  - reflexivity.
  - vm_compute. discriminate.
Defined.

Lemma init_idempotent_witness :
  (init os ;;; init os) fresh = init os fresh.
Proof.
  apply (init_idempotent os fresh).
  intros heap E. injection E as <-. vm_compute. discriminate.
Defined.

Lemma mmap_failure_is_fatal_witness :
  init None fresh = Fatal /\
  malloc None 0 fresh = Fatal /\
  calloc None 4 8 fresh = Fatal /\
  realloc None NULL 24 fresh = Fatal /\
  free first_ptr fresh = Done tt fresh /\
  realloc None first_ptr 0 fresh = Done NULL fresh.
Proof.
  destruct (mmap_failure_is_fatal fresh eq_refl)
    as (Hi & Hm & Hc & Hn & _ & Hf & Hz & _).
  split; [exact Hi|]. split; [exact (Hm 0)|]. split; [exact (Hc 4 8)|].
  split; [exact (Hn 24)|]. split; [exact (Hf first_ptr)|].
  apply (Hz first_ptr). vm_compute. discriminate.
Defined.

Lemma allocation_is_16_aligned_witness :
  first_ptr mod 16 = 0.
Proof.
  apply (proj1 (allocation_is_16_aligned os fresh) 24 first_ptr one_block).
  reflexivity.
Defined.

Lemma release_never_reuses_witness :
  free first_ptr one_block = Done tt one_block /\
  realloc os first_ptr 0 one_block = Done NULL one_block /\
  (free first_ptr ;;; malloc os 19) one_block = malloc os 19 one_block /\
  (realloc os first_ptr 0 ;;; malloc os 19) one_block =
    malloc os 19 one_block /\
  forall q s', malloc os 19 one_block = Done q s' -> q <> NULL ->
               free_addr one_block < q /\ q <> first_ptr.
Proof.
  apply (release_never_reuses os one_block first_ptr 19).
  - vm_compute. discriminate.
  - vm_compute. split; [reflexivity | discriminate].
  - vm_compute. discriminate.
Defined.

Lemma malloc_granted_frame_witness :
  exists p s',
    malloc os 19 one_block = Done p s' /\
    free_addr one_block < p /\
    start_addr one_block + 16 <= p /\
    free_addr s' = p + 19 /\
    free_addr one_block < free_addr s' <= end_addr one_block /\
    start_addr s' = start_addr one_block /\
    end_addr s' = end_addr one_block /\
    forall a, a < p - sizeof_header \/ p <= a -> mem s' a = mem one_block a.
Proof.
  apply (malloc_granted_frame os one_block 19).
  - unfold region_ok. vm_compute.
    repeat split; try discriminate. left. discriminate.
  - vm_compute. split; reflexivity.
  - reflexivity.
Defined.

Lemma consecutive_blocks_disjoint_iff_witness :
  block_start (heap_base + 64) = pad (block_end first_ptr 24) /\
  (blocks_disjoint first_ptr 24 (heap_base + 64) 19 <-> 24 mod 16 <= 8) /\
  (8 < 24 mod 16 ->
   block_start (heap_base + 64) = block_end first_ptr 24 - (24 mod 16 - 8)).
Proof.
  apply (consecutive_blocks_disjoint_iff os reserved 24 19
           first_ptr one_block (heap_base + 64) (after_success one_block 19)).
  - unfold region_ok. vm_compute.
    repeat split; try discriminate. left. discriminate.
  - vm_compute. split; reflexivity.
  - vm_compute. split; reflexivity.
  - reflexivity.
  - vm_compute. discriminate.
  - reflexivity.
  - vm_compute. discriminate.
Defined.

Lemma realloc_grow_copies_witness :
  exists q s',
    realloc os first_ptr 48 one_block = Done q s' /\
    q = pad (free_addr one_block) + sizeof_header /\
    q mod 16 = 0 /\
    free_addr one_block < q /\
    header_size (mem s') (header_of q) = 48 /\
    (forall i, 0 <= i < 24 ->
               mem s' (q + i) = mem one_block (first_ptr + i)) /\
    (forall i, 0 <= i < 24 ->
               mem s' (first_ptr + i) = mem one_block (first_ptr + i)) /\
    header_size (mem s') (header_of first_ptr) = 24.
Proof.
  apply (realloc_grow_copies os one_block first_ptr 24 48).
  - unfold region_ok. vm_compute.
    repeat split; try discriminate. left. discriminate.
  - vm_compute. discriminate.
  - reflexivity.
  - vm_compute. split; reflexivity.
  - vm_compute. discriminate.
  - reflexivity.
Defined.

Lemma refusal_is_stable_witness :
  exists s1,
    malloc os HEAP_SIZE reserved = Done NULL s1 /\
    malloc os (HEAP_SIZE + 1) s1 = Done NULL s1.
Proof.
  apply (refusal_is_stable os reserved HEAP_SIZE (HEAP_SIZE + 1)).
  - unfold region_ok. vm_compute.
    repeat split; try discriminate. left. discriminate.
  - vm_compute. split; [reflexivity | discriminate].
  - vm_compute. reflexivity.
  - reflexivity.
Defined.

Lemma calloc_zero_product_witness :
  calloc os 4294967296 4294967296 one_block = Done NULL one_block.
Proof.
  apply (calloc_zero_product os one_block 4294967296 4294967296).
  - vm_compute. discriminate.
  - reflexivity.
Defined.

Lemma realloc_result_holds_size_witness :
  exists q s',
    realloc os first_ptr 48 one_block = Done q s' /\
    48 <= header_size (mem s') (header_of q).
Proof.
  exists (heap_base + 64),
    (set_mem (after_success one_block 48)
       (memcpy (mem (after_success one_block 48)) (heap_base + 64)
          first_ptr 24)).
  split; [reflexivity|].
  apply (realloc_result_holds_size os one_block first_ptr 48).
  - unfold region_ok. vm_compute.
    repeat split; try discriminate. left. discriminate.
  - vm_compute. split; reflexivity.
  - reflexivity.
  - vm_compute. discriminate.
Defined.




Lemma frontier_stays_in_region_witness :
  exists s',
    run_calls os
      [CallMalloc 9; CallMalloc HEAP_SIZE; CallerStore first_ptr 97;
       CallRealloc first_ptr 10; CallFree first_ptr] reserved = Done tt s' /\
    region_ok s' /\
    start_addr s' = start_addr reserved /\
    end_addr s' = end_addr reserved /\
    start_addr reserved <= free_addr s' <= end_addr reserved + 24.
Proof.
  apply (frontier_stays_in_region os).
  - unfold region_ok. vm_compute.
    repeat split; try discriminate. left. discriminate.
  - repeat constructor; vm_compute; try discriminate; reflexivity.
Defined.

Lemma allocator_writes_inside_region_witness :
  exists s',
    run_calls os
      [CallMalloc 9; CallCalloc 4 8; CallRealloc first_ptr 40;
       CallFree first_ptr] reserved = Done tt s' /\
    forall a, outside reserved a -> mem s' a = mem reserved a.
Proof.
  apply (allocator_writes_inside_region os).
  - unfold region_ok. vm_compute.
    repeat split; try discriminate. left. discriminate.
  - repeat constructor; vm_compute; try discriminate; reflexivity.
  - reflexivity.
Defined.

Lemma program_keeps_region_witness :
  exists s',
    run_calls (Some heap_base)
      [CallFree 0; CallRealloc NULL 24; CallerStore first_ptr 97;
       CallRealloc first_ptr 33; CallMalloc 0] fresh = Done tt s' /\
    (start_addr s' = 0 \/
     (start_addr s' = heap_base /\
      end_addr s' = heap_base + 2147483648 /\
      heap_base <= free_addr s' <= heap_base + 2147483648 + 24)).
Proof.
  apply (program_keeps_region heap_base).
  - reflexivity.
  - reflexivity.
  - vm_compute. discriminate.
  - left. reflexivity.
  - repeat constructor; vm_compute; try discriminate; reflexivity.
Defined.

Lemma main_returns_zero_witness :
  (exists s',
     main (Some heap_base) (boot zero_mem) = Done 0 s' /\
     start_addr s' = heap_base /\
     end_addr s' = heap_base + 2147483648 /\
     free_addr s' = heap_base + 208) /\
  main None (boot zero_mem) = Fatal.
Proof.
  apply (main_returns_zero heap_base zero_mem).
  - reflexivity.
  - reflexivity.
  - vm_compute. discriminate.
Defined.
